(** * MicrophoneWaveVisualizer: a shallow embedding of the widget

    The component of [src/components/MicrophoneWaveVisualizer.tsx] is
    modelled in three layers:

    - [jsnum]: the JavaScript numbers the component computes with.  Finite
      values are exact rationals, so the rounding of IEEE doubles is not
      modelled; what is modelled is where a division leaves the finite
      numbers ([0/0] is [NaN], [x/0] is an infinity).  Signed zeros are not
      distinguished.
    - the per-frame signal computation of [analyzeAudio] (level and pitch)
      as functions of the byte buffer and the audio context;
    - the component itself: React state, the five refs, and the part of the
      host the component talks to (frame scheduler, alert, console), with
      [startRecording], [stopRecording] and [analyzeAudio] as state
      transformers.  A [setState] call is taken to update the state where
      it stands in the program; [startRecording] is taken from the point
      where the awaited [getUserMedia] settles, since nothing precedes the
      [await]. *)

From Stdlib Require Import ZArith QArith Qround List Bool Lia Lqa Recdef.
From Stdlib Require Import Strings.String Strings.Byte.
Import ListNotations.

Local Open Scope Z_scope.

(** ** JavaScript numbers *)

Inductive jsnum : Type :=
| Fin (q : Q)
| PInf
| NInf
| NaN.

(** Equality of numbers up to the representation of the rational. *)
Definition jeq (a b : jsnum) : Prop :=
  match a, b with
  | Fin x, Fin y => (x == y)%Q
  | PInf, PInf | NInf, NInf | NaN, NaN => True
  | _, _ => False
  end.

Definition jneg (a : jsnum) : jsnum :=
  match a with
  | Fin x => Fin (- x)%Q
  | PInf => NInf
  | NInf => PInf
  | NaN => NaN
  end.

(** The infinity with the sign of [x] times the sign of [a]; [NaN] at 0. *)
Definition jscale_inf (x : Q) (a : jsnum) : jsnum :=
  match (x ?= 0)%Q with
  | Eq => NaN
  | Gt => a
  | Lt => jneg a
  end.

Definition jadd (a b : jsnum) : jsnum :=
  match a, b with
  | NaN, _ | _, NaN => NaN
  | Fin x, Fin y => Fin (x + y)%Q
  | PInf, NInf | NInf, PInf => NaN
  | PInf, _ | _, PInf => PInf
  | NInf, _ | _, NInf => NInf
  end.

Definition jmul (a b : jsnum) : jsnum :=
  match a, b with
  | NaN, _ | _, NaN => NaN
  | Fin x, Fin y => Fin (x * y)%Q
  | Fin x, inf => jscale_inf x inf
  | inf, Fin y => jscale_inf y inf
  | PInf, PInf | NInf, NInf => PInf
  | PInf, NInf | NInf, PInf => NInf
  end.

Definition jdiv (a b : jsnum) : jsnum :=
  match a, b with
  | NaN, _ | _, NaN => NaN
  | Fin x, Fin y =>
      if Qeq_bool y 0
      then match (x ?= 0)%Q with Eq => NaN | Gt => PInf | Lt => NInf end
      else Fin (x / y)%Q
  | Fin _, _ => Fin 0
  | inf, Fin y => if Qle_bool 0 y then inf else jneg inf
  | _, _ => NaN
  end.

Definition jnum (z : Z) : jsnum := Fin (inject_Z z).

(** ** The sample buffer and the audio nodes *)

(** A [Uint8Array]: its elements are bytes by type. *)
Definition Uint8Array : Type := list byte.

Definition byteVal (b : byte) : Z := Z.of_N (Byte.to_N b).

Definition array_length (B : Uint8Array) : Z := Z.of_nat (List.length B).

(** [B[i]]: [None] stands for [undefined], the value of a read outside the
    array. *)
Definition array_get (B : Uint8Array) (i : Z) : option byte :=
  if i <? 0 then None else nth_error B (Z.to_nat i).

(** [new Uint8Array(n)]: [n] zero bytes. *)
Definition new_Uint8Array (n : Z) : Uint8Array := repeat x00 (Z.to_nat n).

(** The sample rate of an audio context is a positive finite number: it is
    kept as a fraction of two positive integers. *)
Record AudioContext : Type := {
  sampleRate_num : positive;
  sampleRate_den : positive
}.

Definition sampleRate (ctx : AudioContext) : Q :=
  Z.pos (sampleRate_num ctx) # sampleRate_den ctx.

Record AnalyserNode : Type := {
  fftSize : Z;
  smoothingTimeConstant : Q
}.

Definition frequencyBinCount (a : AnalyserNode) : Z := fftSize a / 2.

(** ** The per-frame signal computation of [analyzeAudio] *)

(** [dataArray.reduce((sum, value) => sum + value, 0)] *)
Definition reduce_sum (B : Uint8Array) : Z :=
  fold_left (fun sum value => sum + byteVal value) B 0.

(** [average / 255] with [average = reduce(...) / dataArray.length]. *)
Definition computeLevel (B : Uint8Array) : jsnum :=
  let average := jdiv (jnum (reduce_sum B)) (jnum (array_length B)) in
  jdiv average (jnum 255).

(** [Math.floor(freq * dataArray.length / (sampleRate / 2))] *)
Definition binIndex (freq : Z) (B : Uint8Array) (ctx : AudioContext) : Z :=
  Qfloor (inject_Z (freq * array_length B) / (sampleRate ctx / 2))%Q.

Definition startIndex (B : Uint8Array) (ctx : AudioContext) : Z :=
  binIndex 80 B ctx.

Definition endIndex (B : Uint8Array) (ctx : AudioContext) : Z :=
  binIndex 1000 B ctx.

(** The variables of the scan loop, and the indices at which the loop has
    read the buffer (latest first). *)
Record ScanState : Type := {
  maxIndex : Z;
  maxValue : Z;
  reads : list Z
}.

Definition scan_init : ScanState :=
  {| maxIndex := 0; maxValue := 0; reads := [] |}.

(** [for (let i = start; i < stop && i < dataArray.length; i++)
      if (dataArray[i] > maxValue) { maxValue = dataArray[i]; maxIndex = i; }]
    A comparison with [undefined] is false. *)
Function scan (B : Uint8Array) (stop i : Z) (st : ScanState)
  {measure (fun j => Z.to_nat (array_length B - j)) i} : ScanState :=
  if (i <? stop) && (i <? array_length B) then
    match array_get B i with
    | Some v =>
        if byteVal v >? maxValue st
        then scan B stop (i + 1)
               {| maxIndex := i; maxValue := byteVal v;
                  reads := i :: i :: reads st |}
        else scan B stop (i + 1)
               {| maxIndex := maxIndex st; maxValue := maxValue st;
                  reads := i :: reads st |}
    | None =>
        scan B stop (i + 1)
          {| maxIndex := maxIndex st; maxValue := maxValue st;
             reads := i :: reads st |}
    end
  else st.
Proof.
  all: intros B stop i st Hc; intros;
    apply andb_prop in Hc; destruct Hc as [_ Hlt];
    apply Z.ltb_lt in Hlt; lia.
Defined.

Definition pitchScan (B : Uint8Array) (ctx : AudioContext) : ScanState :=
  scan B (endIndex B ctx) (startIndex B ctx) scan_init.

(** [maxIndex / (endIndex - startIndex)] *)
Definition computePitch (B : Uint8Array) (ctx : AudioContext) : jsnum :=
  jdiv (jnum (maxIndex (pitchScan B ctx)))
       (jnum (endIndex B ctx - startIndex B ctx)).

(** ** The component and its host *)

Record MediaStream : Type := { stream_id : nat }.

(** What the component does to the outside, in the order it does it. *)
Inductive Effect : Type :=
| ConsoleError (msg : string)
| Alert (msg : string)
| TrackStop (stream : MediaStream)
| ContextClose (ctx : AudioContext)
| FrameRequest (id : positive)
| FrameCancel (id : positive).

(** React state ([useState]), the refs ([useRef]) and the host: the frame
    callbacks that [requestAnimationFrame] has queued and not yet run, the
    next request id (ids are non-zero) and the effects so far. *)
Record World : Type := {
  isRecording : bool;
  audioLevel : jsnum;
  pitch : jsnum;
  isPermissionGranted : bool;
  audioContextRef : option AudioContext;
  analyserRef : option AnalyserNode;
  streamRef : option MediaStream;
  animationRef : option positive;
  dataArrayRef : option Uint8Array;
  frameQueue : list positive;
  nextFrameId : positive;
  effects : list Effect
}.

Definition initial : World :=
  {| isRecording := false; audioLevel := jnum 0; pitch := jnum 0;
     isPermissionGranted := false;
     audioContextRef := None; analyserRef := None; streamRef := None;
     animationRef := None; dataArrayRef := None;
     frameQueue := []; nextFrameId := 1%positive; effects := [] |}.

Definition setIsRecording (b : bool) (w : World) : World :=
  {| isRecording := b; audioLevel := audioLevel w; pitch := pitch w;
     isPermissionGranted := isPermissionGranted w;
     audioContextRef := audioContextRef w; analyserRef := analyserRef w;
     streamRef := streamRef w; animationRef := animationRef w;
     dataArrayRef := dataArrayRef w;
     frameQueue := frameQueue w; nextFrameId := nextFrameId w;
     effects := effects w |}.

Definition setAudioLevel (x : jsnum) (w : World) : World :=
  {| isRecording := isRecording w; audioLevel := x; pitch := pitch w;
     isPermissionGranted := isPermissionGranted w;
     audioContextRef := audioContextRef w; analyserRef := analyserRef w;
     streamRef := streamRef w; animationRef := animationRef w;
     dataArrayRef := dataArrayRef w;
     frameQueue := frameQueue w; nextFrameId := nextFrameId w;
     effects := effects w |}.

Definition setPitch (x : jsnum) (w : World) : World :=
  {| isRecording := isRecording w; audioLevel := audioLevel w; pitch := x;
     isPermissionGranted := isPermissionGranted w;
     audioContextRef := audioContextRef w; analyserRef := analyserRef w;
     streamRef := streamRef w; animationRef := animationRef w;
     dataArrayRef := dataArrayRef w;
     frameQueue := frameQueue w; nextFrameId := nextFrameId w;
     effects := effects w |}.

Definition setIsPermissionGranted (b : bool) (w : World) : World :=
  {| isRecording := isRecording w; audioLevel := audioLevel w;
     pitch := pitch w; isPermissionGranted := b;
     audioContextRef := audioContextRef w; analyserRef := analyserRef w;
     streamRef := streamRef w; animationRef := animationRef w;
     dataArrayRef := dataArrayRef w;
     frameQueue := frameQueue w; nextFrameId := nextFrameId w;
     effects := effects w |}.

Definition set_audioContextRef (r : option AudioContext) (w : World) : World :=
  {| isRecording := isRecording w; audioLevel := audioLevel w;
     pitch := pitch w; isPermissionGranted := isPermissionGranted w;
     audioContextRef := r; analyserRef := analyserRef w;
     streamRef := streamRef w; animationRef := animationRef w;
     dataArrayRef := dataArrayRef w;
     frameQueue := frameQueue w; nextFrameId := nextFrameId w;
     effects := effects w |}.

Definition set_analyserRef (r : option AnalyserNode) (w : World) : World :=
  {| isRecording := isRecording w; audioLevel := audioLevel w;
     pitch := pitch w; isPermissionGranted := isPermissionGranted w;
     audioContextRef := audioContextRef w; analyserRef := r;
     streamRef := streamRef w; animationRef := animationRef w;
     dataArrayRef := dataArrayRef w;
     frameQueue := frameQueue w; nextFrameId := nextFrameId w;
     effects := effects w |}.

Definition set_streamRef (r : option MediaStream) (w : World) : World :=
  {| isRecording := isRecording w; audioLevel := audioLevel w;
     pitch := pitch w; isPermissionGranted := isPermissionGranted w;
     audioContextRef := audioContextRef w; analyserRef := analyserRef w;
     streamRef := r; animationRef := animationRef w;
     dataArrayRef := dataArrayRef w;
     frameQueue := frameQueue w; nextFrameId := nextFrameId w;
     effects := effects w |}.

Definition set_animationRef (r : option positive) (w : World) : World :=
  {| isRecording := isRecording w; audioLevel := audioLevel w;
     pitch := pitch w; isPermissionGranted := isPermissionGranted w;
     audioContextRef := audioContextRef w; analyserRef := analyserRef w;
     streamRef := streamRef w; animationRef := r;
     dataArrayRef := dataArrayRef w;
     frameQueue := frameQueue w; nextFrameId := nextFrameId w;
     effects := effects w |}.

Definition set_dataArrayRef (r : option Uint8Array) (w : World) : World :=
  {| isRecording := isRecording w; audioLevel := audioLevel w;
     pitch := pitch w; isPermissionGranted := isPermissionGranted w;
     audioContextRef := audioContextRef w; analyserRef := analyserRef w;
     streamRef := streamRef w; animationRef := animationRef w;
     dataArrayRef := r;
     frameQueue := frameQueue w; nextFrameId := nextFrameId w;
     effects := effects w |}.

Definition set_host (q : list positive) (n : positive) (e : list Effect)
    (w : World) : World :=
  {| isRecording := isRecording w; audioLevel := audioLevel w;
     pitch := pitch w; isPermissionGranted := isPermissionGranted w;
     audioContextRef := audioContextRef w; analyserRef := analyserRef w;
     streamRef := streamRef w; animationRef := animationRef w;
     dataArrayRef := dataArrayRef w;
     frameQueue := q; nextFrameId := n; effects := e |}.

Definition emit (e : Effect) (w : World) : World :=
  set_host (frameQueue w) (nextFrameId w) (effects w ++ [e]) w.

(** [requestAnimationFrame(analyzeAudio)]: queues the callback and returns
    its id. *)
Definition requestAnimationFrame (w : World) : positive * World :=
  let id := nextFrameId w in
  (id, set_host (frameQueue w ++ [id]) (Pos.succ id)
         (effects w ++ [FrameRequest id]) w).

(** [cancelAnimationFrame(id)] *)
Definition cancelAnimationFrame (id : positive) (w : World) : World :=
  set_host (filter (fun j => negb (Pos.eqb j id)) (frameQueue w))
           (nextFrameId w) (effects w ++ [FrameCancel id]) w.

(** What the analyser has for each bin when a frame reads it. *)
Definition Spectrum : Type := nat -> byte.

(** [analyser.getByteFrequencyData(array)] overwrites the array in place. *)
Definition getByteFrequencyData (data : Spectrum) (B : Uint8Array)
    : Uint8Array :=
  map data (seq 0 (List.length B)).

(** [analyzeAudio]: one run of the frame callback, reading [data] from the
    analyser. *)
Definition analyzeAudio (data : Spectrum) (w : World) : World :=
  match analyserRef w, dataArrayRef w with
  | Some _, Some arr =>
      let B := getByteFrequencyData data arr in
      let w := set_dataArrayRef (Some B) w in
      let w := setAudioLevel (computeLevel B) w in
      match audioContextRef w with
      | None => w
      | Some ctx =>
          let w := setPitch (computePitch B ctx) w in
          let '(id, w) := requestAnimationFrame w in
          set_animationRef (Some id) w
      end
  | _, _ => w
  end.

(** [stopRecording] *)
Definition stopRecording (w : World) : World :=
  let w :=
    match streamRef w with
    | Some s => set_streamRef None (emit (TrackStop s) w)
    | None => w
    end in
  let w :=
    match audioContextRef w with
    | Some c => set_audioContextRef None (emit (ContextClose c) w)
    | None => w
    end in
  let w :=
    match animationRef w with
    | Some id => set_animationRef None (cancelAnimationFrame id w)
    | None => w
    end in
  setPitch (jnum 0) (setAudioLevel (jnum 0) (setIsRecording false w)).

(** How a call of [startRecording] goes: [getUserMedia] rejects (permission
    denied, no device), or it resolves with a stream and then the audio
    pipeline is built, which throws at [new AudioContext()] or at
    [createMediaStreamSource], or succeeds; on success the call ends with
    the first run of [analyzeAudio]. *)
Inductive StartEnv : Type :=
| GumRejects (reason : string)
| NewContextThrows (stream : MediaStream)
| CreateSourceThrows (stream : MediaStream) (ctx : AudioContext)
| Granted (stream : MediaStream) (ctx : AudioContext) (data : Spectrum).

Definition micErrorLog : string := "Error accessing microphone:".
Definition micErrorAlert : string :=
  "Could not access microphone. Please check permissions.".

(** The [catch] block of [startRecording]. *)
Definition catchStartError (w : World) : World :=
  emit (Alert micErrorAlert) (emit (ConsoleError micErrorLog) w).

(** [audioContext.createAnalyser()], with the defaults of the Web Audio API. *)
Definition createAnalyser : AnalyserNode :=
  {| fftSize := 2048; smoothingTimeConstant := 8 # 10 |}.

(** The statements of [startRecording] between the [await] and the
    construction of the audio context. *)
Definition keepStream (stream : MediaStream) (w : World) : World :=
  setIsPermissionGranted true (set_streamRef (Some stream) w).

(** The statements up to [createAnalyser()]. *)
Definition createNodes (ctx : AudioContext) (w : World) : World :=
  set_analyserRef (Some createAnalyser) (set_audioContextRef (Some ctx) w).

(** The statements from the configuration of the analyser on; [a] is
    [analyserRef.current]. *)
Definition configureAndRun (a : AnalyserNode) (data : Spectrum) (w : World)
    : World :=
  let a := {| fftSize := 2048; smoothingTimeConstant := smoothingTimeConstant a |} in
  let a := {| fftSize := fftSize a; smoothingTimeConstant := 8 # 10 |} in
  let w := set_analyserRef (Some a) w in
  let bufferLength := frequencyBinCount a in
  let w := set_dataArrayRef (Some (new_Uint8Array bufferLength)) w in
  let w := setIsRecording true w in
  analyzeAudio data w.

(** [startRecording], from the point where the awaited [getUserMedia]
    settles. *)
Definition startRecording (env : StartEnv) (w : World) : World :=
  match env with
  | GumRejects _ => catchStartError w
  | NewContextThrows stream => catchStartError (keepStream stream w)
  | CreateSourceThrows stream ctx =>
      catchStartError (createNodes ctx (keepStream stream w))
  | Granted stream ctx data =>
      configureAndRun createAnalyser data (createNodes ctx (keepStream stream w))
  end.

(** [handleToggle] *)
Definition handleToggle (env : StartEnv) (w : World) : World :=
  if isRecording w then stopRecording w else startRecording env w.

(** The host runs the oldest queued frame callback. *)
Definition runFrame (data : Spectrum) (w : World) : World :=
  match frameQueue w with
  | [] => w
  | _ :: rest => analyzeAudio data (set_host rest (nextFrameId w) (effects w) w)
  end.

(** What can happen to a mounted component. *)
Inductive Op : Type :=
| OpStart (env : StartEnv)
| OpStop
| OpToggle (env : StartEnv)
| OpFrame (data : Spectrum).

Definition run_op (w : World) (op : Op) : World :=
  match op with
  | OpStart env => startRecording env w
  | OpStop => stopRecording w
  | OpToggle env => handleToggle env w
  | OpFrame data => runFrame data w
  end.

Definition run_ops (ops : list Op) (w : World) : World :=
  fold_left run_op ops w.

Definition reachable (w : World) : Prop :=
  exists ops, run_ops ops initial = w.

(** ** Presentation *)

Record Colors : Type := { main : string; glow : string; shadow : string }.

Record OrbView : Type := {
  pulseSize : jsnum;
  glowIntensity : jsnum;
  colors : Colors
}.

(** [getColors] of [NeonOrbStyle] *)
Definition getColors (isActive : bool) : Colors :=
  if isActive
  then {| main := "#1e3a8a"; glow := "#1d4ed8"; shadow := "shadow-blue-800/40" |}
  else {| main := "#666666"; glow := "#666666"; shadow := "shadow-gray-500/30" |}.

(** [NeonOrbStyle]: the values its markup is drawn from. *)
Definition NeonOrbStyle (isActive : bool) (volume pitch : jsnum) : OrbView :=
  {| pulseSize := jadd (jnum 1) (jmul (jadd volume pitch) (Fin 0.3));
     glowIntensity := jmul (jadd volume pitch) (jnum 30);
     colors := getColors isActive |}.

Inductive Status : Type := Recording | ReadyToRecord | ClickStart.

Definition statusIndicator (w : World) : Status :=
  if isRecording w then Recording
  else if isPermissionGranted w then ReadyToRecord else ClickStart.

(** The orb as the component renders it. *)
Definition renderOrb (w : World) : OrbView :=
  NeonOrbStyle (isRecording w) (audioLevel w) (pitch w).

(** ** The signal pair as the specification words it *)

(** The value of bin [i]; 0 outside the buffer. *)
Definition binValue (B : Uint8Array) (i : Z) : Z :=
  match array_get B i with
  | Some v => byteVal v
  | None => 0
  end.

Fixpoint sumBins (B : Uint8Array) : Z :=
  match B with
  | [] => 0
  | v :: B' => byteVal v + sumBins B'
  end.

(** Arithmetic mean of the bins, divided by 255. *)
Definition spec_level (B : Uint8Array) : Q :=
  (inject_Z (sumBins B) / inject_Z (array_length B) / 255)%Q.

(** [m] is the lowest index of [lo, hi) at which [B] is largest there. *)
Definition first_argmax (B : Uint8Array) (lo hi m : Z) : Prop :=
  lo <= m < hi /\
  (forall j, lo <= j < hi -> binValue B j <= binValue B m) /\
  (forall j, lo <= j < m -> binValue B j < binValue B m).

Fixpoint argmax_among (B : Uint8Array) (best : Z) (candidates : list Z) : Z :=
  match candidates with
  | [] => best
  | j :: rest =>
      if binValue B j >? binValue B best
      then argmax_among B j rest
      else argmax_among B best rest
  end.

(** The [n] indices from [a] on. *)
Fixpoint indices (a : Z) (n : nat) : list Z :=
  match n with
  | O => []
  | S n' => a :: indices (a + 1) n'
  end.

(** The lowest index of [lo, hi) at which [B] is largest, computed. *)
Definition spec_argmax (B : Uint8Array) (lo hi : Z) : Z :=
  argmax_among B lo (indices (lo + 1) (Z.to_nat (hi - lo - 1))).

(** [(argmax - startIndex) / (endIndex - startIndex)] *)
Definition spec_pitch (B : Uint8Array) (ctx : AudioContext) : Q :=
  let lo := startIndex B ctx in
  let hi := endIndex B ctx in
  (inject_Z (spec_argmax B lo hi - lo) / inject_Z (hi - lo))%Q.

(** ** Sample inputs *)

Definition ctx44100 : AudioContext :=
  {| sampleRate_num := 44100; sampleRate_den := 1 |}.

(** A sample rate so high that both ends of the voice band fall in bin 0. *)
Definition ctx4096000 : AudioContext :=
  {| sampleRate_num := 4096000; sampleRate_den := 1 |}.

(** A sample rate so low that the voice band ends beyond the buffer. *)
Definition ctx1000 : AudioContext :=
  {| sampleRate_num := 1000; sampleRate_den := 1 |}.

(** 1024 bins, all 0 but bin [k], which is 255. *)
Definition peakAt (k : nat) : Uint8Array :=
  repeat x00 k ++ [xff] ++ repeat x00 (1023 - k).

Definition silence : Spectrum := fun _ => x00.
Definition loud : Spectrum := fun _ => xff.
Definition peakSpectrum (k : nat) : Spectrum :=
  fun i => if Nat.eqb i k then xff else x00.

Definition mic : MediaStream := {| stream_id := 1 |}.

(** ** Predicates on worlds *)

(** No ref holds a resource of a session. *)
Definition noSessionResources (w : World) : Prop :=
  streamRef w = None /\ audioContextRef w = None /\ analyserRef w = None /\
  dataArrayRef w = None /\ animationRef w = None.

(** [w'] has the React state, the refs and the frame queue of [w]. *)
Definition sameController (w w' : World) : Prop :=
  isRecording w' = isRecording w /\
  isPermissionGranted w' = isPermissionGranted w /\
  audioLevel w' = audioLevel w /\ pitch w' = pitch w /\
  streamRef w' = streamRef w /\ audioContextRef w' = audioContextRef w /\
  analyserRef w' = analyserRef w /\ dataArrayRef w' = dataArrayRef w /\
  animationRef w' = animationRef w /\
  frameQueue w' = frameQueue w /\ nextFrameId w' = nextFrameId w.

(** While recording the analyser and the buffer are there, and a buffer
    that is there has the 1024 bins of a 2048-point transform. *)
Definition sessionInv (w : World) : Prop :=
  (isRecording w = true -> analyserRef w <> None /\ dataArrayRef w <> None) /\
  (forall B, dataArrayRef w = Some B -> array_length B = 1024).

(** ** The component as its buttons drive it *)

(** [startRecording] is called by [handleToggle] when [isRecording] is
    false and by the start button, which is rendered when [isRecording] is
    false.  With no second call in flight, a start settles in a world that
    is not recording. *)
Definition uiAllows (w : World) (op : Op) : bool :=
  match op with
  | OpStart _ => negb (isRecording w)
  | _ => true
  end.

Inductive uiReachable : World -> Prop :=
| ui_initial : uiReachable initial
| ui_step (w : World) (op : Op) :
    uiReachable w -> uiAllows w op = true -> uiReachable (run_op w op).

(** Idle: nothing queued and both signals 0.  Recording: the whole
    pipeline is referenced and one frame callback is queued, the one whose
    id is in [animationRef]. *)
Definition uiInv (w : World) : Prop :=
  (isRecording w = false ->
   frameQueue w = [] /\ audioLevel w = jnum 0 /\ pitch w = jnum 0) /\
  (isRecording w = true ->
   audioContextRef w <> None /\ analyserRef w <> None /\
   dataArrayRef w <> None /\
   exists id, frameQueue w = [id] /\ animationRef w = Some id).

(** The ranges of the published signals: a level in [0,1]; a pitch that is
    [NaN] or a finite number that is not negative. *)
Definition levelInRange (x : jsnum) : Prop :=
  exists q : Q, x = Fin q /\ (0 <= q <= 1)%Q.

Definition pitchInRange (x : jsnum) : Prop :=
  x = NaN \/ exists q : Q, x = Fin q /\ (0 <= q)%Q.


(** The button under the orb: start when idle, stop when recording. *)
Inductive Button : Type := StartButton | StopButton.

Definition controlButton (w : World) : Button :=
  if isRecording w then StopButton else StartButton.

(** A click on the button under the orb. *)
Definition clickControl (env : StartEnv) (w : World) : World :=
  match controlButton w with
  | StartButton => startRecording env w
  | StopButton => stopRecording w
  end.

(** * Properties *)

(** ** Bytes and sums *)

Lemma byteVal_range (b : byte) : 0 <= byteVal b <= 255.
Proof.
  unfold byteVal. pose proof (Byte.to_N_bounded b). lia.
Qed.

Lemma fold_sum_shift (B : Uint8Array) (acc : Z) :
  fold_left (fun sum value => sum + byteVal value) B acc = acc + sumBins B.
Proof.
  revert acc. induction B as [|v B IH]; intros acc; simpl.
  - lia.
  - rewrite IH. lia.
Qed.

Lemma reduce_sum_sumBins (B : Uint8Array) : reduce_sum B = sumBins B.
Proof. unfold reduce_sum. rewrite fold_sum_shift. lia. Qed.

Lemma sumBins_range (B : Uint8Array) :
  0 <= sumBins B <= 255 * array_length B.
Proof.
  unfold array_length.
  induction B as [|v B IH]; simpl List.length; simpl sumBins.
  - lia.
  - pose proof (byteVal_range v). lia.
Qed.

Lemma array_length_pos (B : Uint8Array) : B <> [] -> 0 < array_length B.
Proof.
  unfold array_length. destruct B; [congruence | simpl; lia].
Qed.

Lemma Qeq_bool_inject_Z_pos (z : Z) : 0 < z -> Qeq_bool (inject_Z z) 0 = false.
Proof.
  intros Hz. destruct (Qeq_bool (inject_Z z) 0) eqn:E; [|reflexivity].
  apply Qeq_bool_eq in E. unfold Qeq in E. simpl in E. lia.
Qed.

(** ** Reads of the buffer *)

Lemma array_get_in_bounds (B : Uint8Array) (i : Z) :
  0 <= i < array_length B -> array_get B i <> None.
Proof.
  unfold array_get, array_length. intros [H0 H1].
  destruct (i <? 0) eqn:E; [apply Z.ltb_lt in E; lia|].
  apply nth_error_Some. lia.
Qed.

Lemma array_get_out_of_bounds (B : Uint8Array) (i : Z) :
  i < 0 \/ array_length B <= i -> array_get B i = None.
Proof.
  unfold array_get, array_length. intros H.
  destruct (i <? 0) eqn:E; [reflexivity|].
  apply Z.ltb_ge in E. apply nth_error_None. lia.
Qed.

(** The scan only adds to the reads indices from [i] on and below both
    bounds of the loop. *)
Lemma scan_reads_from (P : Z -> Prop) (B : Uint8Array) (stop i : Z)
    (st : ScanState) :
  (forall j, i <= j -> j < stop -> j < array_length B -> P j) ->
  Forall P (reads st) ->
  Forall P (reads (scan B stop i st)).
Proof.
  functional induction (scan B stop i st); intros HP Hst.
  - apply andb_prop in e. destruct e as [H1 H2].
    apply Z.ltb_lt in H1. apply Z.ltb_lt in H2.
    apply IHs.
    + intros j Hj. apply HP. lia.
    + simpl. repeat constructor; try assumption; apply HP; lia.
  - apply andb_prop in e. destruct e as [H1 H2].
    apply Z.ltb_lt in H1. apply Z.ltb_lt in H2.
    apply IHs.
    + intros j Hj. apply HP. lia.
    + simpl. constructor; [apply HP; lia | assumption].
  - apply andb_prop in e. destruct e as [H1 H2].
    apply Z.ltb_lt in H1. apply Z.ltb_lt in H2.
    apply IHs.
    + intros j Hj. apply HP. lia.
    + simpl. constructor; [apply HP; lia | assumption].
  - assumption.
Qed.

(** ** The voice band *)

Lemma sampleRate_pos (ctx : AudioContext) : (0 < sampleRate ctx)%Q.
Proof. unfold sampleRate, Qlt. simpl. lia. Qed.

Lemma half_sampleRate_pos (ctx : AudioContext) : (0 < sampleRate ctx / 2)%Q.
Proof.
  apply Qlt_shift_div_l; [reflexivity|].
  rewrite Qmult_0_l. apply sampleRate_pos.
Qed.

Lemma binIndex_mono (f g : Z) (B : Uint8Array) (ctx : AudioContext) :
  f <= g -> binIndex f B ctx <= binIndex g B ctx.
Proof.
  intros Hfg. unfold binIndex. apply Qfloor_resp_le.
  pose proof (half_sampleRate_pos ctx) as Hh.
  apply Qle_shift_div_l; [assumption|].
  unfold Qdiv. rewrite <- Qmult_assoc.
  rewrite (Qmult_comm (/ _)), Qmult_inv_r, Qmult_1_r.
  - rewrite <- Zle_Qle. apply Z.mul_le_mono_nonneg_r; [|assumption].
    unfold array_length. lia.
  - intros E. rewrite E in Hh. discriminate Hh.
Qed.

Lemma binIndex_0 (B : Uint8Array) (ctx : AudioContext) : binIndex 0 B ctx = 0.
Proof.
  unfold binIndex. rewrite Z.mul_0_l.
  replace 0 with (Qfloor (inject_Z 0)) at 2 by apply Qfloor_Z.
  apply Qfloor_comp. unfold Qdiv. apply Qmult_0_l.
Qed.

Lemma startIndex_nonneg (B : Uint8Array) (ctx : AudioContext) :
  0 <= startIndex B ctx.
Proof.
  unfold startIndex. rewrite <- (binIndex_0 B ctx).
  apply binIndex_mono. lia.
Qed.

Lemma startIndex_le_endIndex (B : Uint8Array) (ctx : AudioContext) :
  startIndex B ctx <= endIndex B ctx.
Proof. apply binIndex_mono. lia. Qed.

(** ** What the scan finds *)

Lemma binValue_nonneg (B : Uint8Array) (j : Z) : 0 <= binValue B j.
Proof.
  unfold binValue. destruct (array_get B j) as [v|]; [|lia].
  apply byteVal_range.
Qed.

(** From [i] on, the scan either leaves the running maximum as it is, and
    then no bin exceeds it, or ends on the lowest index whose bin exceeds
    everything before it and is exceeded by nothing after it. *)
Lemma scan_inv (B : Uint8Array) (stop i : Z) (st : ScanState) :
  0 <= i ->
  let r := scan B stop i st in
  let hi := Z.min stop (array_length B) in
  (forall j, i <= j < hi -> binValue B j <= maxValue r) /\
  maxValue st <= maxValue r /\
  ((maxIndex r = maxIndex st /\ maxValue r = maxValue st) \/
   (i <= maxIndex r < hi /\
    binValue B (maxIndex r) = maxValue r /\
    maxValue st < maxValue r /\
    forall j, i <= j < maxIndex r -> binValue B j < maxValue r)).
Proof.
  functional induction (scan B stop i st); intros Hi; cbv zeta.
  - apply andb_prop in e. destruct e as [H1 H2].
    apply Z.ltb_lt in H1. apply Z.ltb_lt in H2. apply Z.gtb_lt in e1.
    assert (Hv : binValue B i = byteVal v) by (unfold binValue; now rewrite e0).
    destruct IHs as (Hub & Hge & Hcase); [lia|]. simpl in Hge, Hcase.
    split; [|split].
    + intros j Hj. destruct (Z.eq_dec j i) as [->|Hne]; [lia|].
      apply Hub. lia.
    + lia.
    + right. destruct Hcase as [[Em Ev] | (Hm & Hbm & Hlt & Hfirst)].
      * rewrite Em, Ev. repeat split; intros; lia.
      * repeat split; try lia. intros j Hj.
        destruct (Z.eq_dec j i) as [->|Hne]; [lia|]. apply Hfirst. lia.
  - apply andb_prop in e. destruct e as [H1 H2].
    apply Z.ltb_lt in H1. apply Z.ltb_lt in H2.
    assert (Hle : byteVal v <= maxValue st).
    { destruct (byteVal v >? maxValue st) eqn:E; [discriminate|].
      rewrite Z.gtb_ltb in E. apply Z.ltb_ge in E. exact E. }
    assert (Hv : binValue B i = byteVal v) by (unfold binValue; now rewrite e0).
    destruct IHs as (Hub & Hge & Hcase); [lia|]. simpl in Hge, Hcase.
    split; [|split].
    + intros j Hj. destruct (Z.eq_dec j i) as [->|Hne]; [lia|].
      apply Hub. lia.
    + lia.
    + destruct Hcase as [[Em Ev] | (Hm & Hbm & Hlt & Hfirst)].
      * left. split; assumption.
      * right. repeat split; try lia. intros j Hj.
        destruct (Z.eq_dec j i) as [->|Hne]; [lia|]. apply Hfirst. lia.
  - apply andb_prop in e. destruct e as [H1 H2].
    apply Z.ltb_lt in H1. apply Z.ltb_lt in H2.
    exfalso. apply (array_get_in_bounds B i); [lia | assumption].
  - assert (Hhi : Z.min stop (array_length B) <= i).
    { apply andb_false_iff in e. destruct e as [E|E]; apply Z.ltb_ge in E; lia. }
    split; [|split].
    + intros j Hj. lia.
    + lia.
    + left. split; reflexivity.
Qed.

(** The index the pitch is computed from: the lowest index of the largest
    bin of the part of the voice band that lies in the buffer, when a bin
    there is not 0; otherwise 0, the initial value of [maxIndex]. *)
Lemma pitchScan_first_argmax (B : Uint8Array) (ctx : AudioContext) :
  let r := pitchScan B ctx in
  let lo := startIndex B ctx in
  let hi := Z.min (endIndex B ctx) (array_length B) in
  (0 < maxValue r ->
   first_argmax B lo hi (maxIndex r) /\ binValue B (maxIndex r) = maxValue r) /\
  (maxValue r <= 0 ->
   maxIndex r = 0 /\ forall j, lo <= j < hi -> binValue B j = 0).
Proof.
  cbv zeta. unfold pitchScan.
  pose proof (scan_inv B (endIndex B ctx) (startIndex B ctx) scan_init
                (startIndex_nonneg B ctx)) as H.
  cbv zeta in H. destruct H as (Hub & Hge & Hcase). simpl in Hge, Hcase.
  split.
  - intros Hpos. destruct Hcase as [[Em Ev] | (Hm & Hbm & Hlt & Hfirst)]; [lia|].
    split; [|assumption]. unfold first_argmax. rewrite Hbm.
    repeat split; try lia; assumption.
  - intros Hz. destruct Hcase as [[Em Ev] | (Hm & Hbm & Hlt & Hfirst)]; [|lia].
    split; [assumption|]. intros j Hj.
    pose proof (Hub j Hj). pose proof (binValue_nonneg B j). lia.
Qed.

Lemma argmax_among_first (B : Uint8Array) (lo : Z) (n : nat) :
  forall a best,
    first_argmax B lo a best ->
    first_argmax B lo (a + Z.of_nat n) (argmax_among B best (indices a n)).
Proof.
  induction n as [|n IH]; intros a best Hb.
  - simpl. now rewrite Z.add_0_r.
  - simpl indices. simpl argmax_among.
    replace (a + Z.of_nat (S n)) with (a + 1 + Z.of_nat n) by lia.
    destruct Hb as (Hr & Hub & Hfirst).
    destruct (binValue B a >? binValue B best) eqn:E; apply IH.
    + apply Z.gtb_lt in E. repeat split; try lia.
      * intros j Hj. destruct (Z.eq_dec j a) as [->|Hne]; [lia|].
        specialize (Hub j). lia.
      * intros j Hj. specialize (Hub j). lia.
    + rewrite Z.gtb_ltb in E. apply Z.ltb_ge in E. repeat split; try lia.
      * intros j Hj. destruct (Z.eq_dec j a) as [->|Hne]; [lia|].
        apply Hub. lia.
      * assumption.
Qed.

(** [spec_argmax] computes the lowest index of the largest bin. *)
Lemma spec_argmax_first (B : Uint8Array) (lo hi : Z) :
  lo < hi -> first_argmax B lo hi (spec_argmax B lo hi).
Proof.
  intros Hlt. unfold spec_argmax.
  replace hi with (lo + 1 + Z.of_nat (Z.to_nat (hi - lo - 1))) at 1 by lia.
  apply argmax_among_first. repeat split; try lia.
  intros j Hj. replace j with lo by lia. lia.
Qed.

Lemma first_argmax_unique (B : Uint8Array) (lo hi m m' : Z) :
  first_argmax B lo hi m -> first_argmax B lo hi m' -> m = m'.
Proof.
  intros (Hr & Hub & Hf) (Hr' & Hub' & Hf').
  destruct (Z.lt_trichotomy m m') as [H | [H | H]]; [|assumption|].
  - specialize (Hf' m). specialize (Hub m'). lia.
  - specialize (Hf m'). specialize (Hub' m). lia.
Qed.

(** On a voice band that is not empty the division is a finite one. *)
Lemma computePitch_value (B : Uint8Array) (ctx : AudioContext) :
  startIndex B ctx < endIndex B ctx ->
  computePitch B ctx =
  Fin (inject_Z (maxIndex (pitchScan B ctx))
       / inject_Z (endIndex B ctx - startIndex B ctx)).
Proof.
  intros Hlt. unfold computePitch, jnum, jdiv.
  rewrite Qeq_bool_inject_Z_pos by lia. reflexivity.
Qed.

(** ** Level *)

(** C7: for a buffer of N > 0 bytes the level that [analyzeAudio] publishes
    is a finite number, equal to the arithmetic mean of the N bins divided
    by 255, and it lies in [0,1].  (The bins are bytes, so in [0,255], by
    the type of the buffer.) *)
Theorem computeLevel_is_mean_over_255 (B : Uint8Array) :
  B <> [] ->
  exists q : Q,
    computeLevel B = Fin q /\ (q == spec_level B)%Q /\ (0 <= q <= 1)%Q.
Proof.
  intros HB. pose proof (array_length_pos B HB) as Hlen.
  pose proof (sumBins_range B) as [Hs0 Hs1].
  exists (inject_Z (reduce_sum B) / inject_Z (array_length B) / inject_Z 255)%Q.
  split; [|split].
  - unfold computeLevel, jnum, jdiv.
    rewrite (Qeq_bool_inject_Z_pos (array_length B) Hlen).
    rewrite (Qeq_bool_inject_Z_pos 255) by lia. reflexivity.
  - unfold spec_level. rewrite reduce_sum_sumBins. reflexivity.
  - rewrite reduce_sum_sumBins.
    assert (Hn : (0 < inject_Z (array_length B))%Q)
      by (rewrite <- (Zlt_Qlt 0); exact Hlen).
    assert (H255 : (0 < inject_Z 255)%Q) by reflexivity.
    split.
    + apply Qle_shift_div_l; [assumption|]. rewrite Qmult_0_l.
      apply Qle_shift_div_l; [assumption|]. rewrite Qmult_0_l.
      rewrite <- (Zle_Qle 0). assumption.
    + apply Qle_shift_div_r; [assumption|]. rewrite Qmult_1_l.
      apply Qle_shift_div_r; [assumption|].
      rewrite <- inject_Z_mult, <- Zle_Qle. assumption.
Qed.

Lemma computeLevel_is_mean_over_255_witness :
  exists q : Q,
    computeLevel (peakAt 45) = Fin q /\
    (q == spec_level (peakAt 45))%Q /\ (0 <= q <= 1)%Q.
Proof.
  apply (computeLevel_is_mean_over_255 (peakAt 45)). discriminate.
Defined.

(** An empty buffer has no mean: the level is [0/0]. *)
Lemma computeLevel_empty : computeLevel [] = NaN.
Proof. reflexivity. Qed.

(** ** Pitch *)

(** C1: at 44100 Hz the voice band of a 1024-bin buffer is [3, 46).  With
    the only non-zero bin at index 45, the lowest index of the largest bin
    is 45 and the pitch of the specification is (45 - 3) / 43; the pitch
    that [analyzeAudio] publishes is 45 / 43, which is above 1: the start
    of the band is not subtracted from [maxIndex]. *)
Theorem computePitch_start_not_subtracted :
  startIndex (peakAt 45) ctx44100 = 3 /\
  endIndex (peakAt 45) ctx44100 = 46 /\
  first_argmax (peakAt 45) 3 46 (maxIndex (pitchScan (peakAt 45) ctx44100)) /\
  maxIndex (pitchScan (peakAt 45) ctx44100) = 45 /\
  computePitch (peakAt 45) ctx44100 = Fin (45 # 43) /\
  ~ (45 # 43 <= 1)%Q /\
  spec_pitch (peakAt 45) ctx44100 = 42 # 43 /\
  ~ jeq (computePitch (peakAt 45) ctx44100)
        (Fin (spec_pitch (peakAt 45) ctx44100)).
Proof.
  assert (Es : startIndex (peakAt 45) ctx44100 = 3) by (vm_compute; reflexivity).
  assert (Ee : endIndex (peakAt 45) ctx44100 = 46) by (vm_compute; reflexivity).
  assert (Em : maxIndex (pitchScan (peakAt 45) ctx44100) = 45)
    by (vm_compute; reflexivity).
  assert (Ep : computePitch (peakAt 45) ctx44100 = Fin (45 # 43))
    by (vm_compute; reflexivity).
  assert (Eq : spec_pitch (peakAt 45) ctx44100 = 42 # 43)
    by (vm_compute; reflexivity).
  assert (Ha : first_argmax (peakAt 45) 3 46 45).
  { pose proof (spec_argmax_first (peakAt 45) 3 46 ltac:(lia)) as Ha.
    replace (spec_argmax (peakAt 45) 3 46) with 45 in Ha
      by (vm_compute; reflexivity).
    exact Ha. }
  rewrite Em, Ep, Eq.
  repeat (split; [assumption || reflexivity|]).
  split; [|split; [reflexivity|]].
  - intros H. vm_compute in H. apply H. reflexivity.
  - intros H. vm_compute in H. discriminate H.
Qed.

(** C2: when the voice band [startIndex, endIndex) is empty, the loop does
    not run, [maxIndex] is still 0, and the pitch that [analyzeAudio]
    publishes is [0 / 0]: not 0 but [NaN]. *)
Theorem computePitch_empty_band_NaN (B : Uint8Array) (ctx : AudioContext) :
  endIndex B ctx <= startIndex B ctx ->
  computePitch B ctx = NaN.
Proof.
  intros Hle. pose proof (startIndex_le_endIndex B ctx) as Hge.
  assert (E : endIndex B ctx = startIndex B ctx) by lia.
  unfold computePitch, pitchScan. rewrite E, Z.sub_diag.
  rewrite scan_equation.
  rewrite Z.ltb_irrefl. reflexivity.
Qed.

Lemma computePitch_empty_band_NaN_witness :
  computePitch (new_Uint8Array 1024) ctx4096000 = NaN.
Proof.
  apply computePitch_empty_band_NaN. vm_compute. discriminate.
Defined.

(** C10: every index at which the pitch scan reads the buffer is an index
    of the buffer, whatever the buffer and the sample rate, also when
    [endIndex] is beyond the end of the buffer; no read gives [undefined]. *)
Theorem pitchScan_reads_in_bounds (B : Uint8Array) (ctx : AudioContext) :
  Forall (fun i => 0 <= i < array_length B /\ array_get B i <> None)
         (reads (pitchScan B ctx)).
Proof.
  unfold pitchScan. pose proof (startIndex_nonneg B ctx) as H0.
  apply scan_reads_from.
  - intros j Hj _ Hlen. split; [lia|]. apply array_get_in_bounds. lia.
  - constructor.
Qed.

(** At 1000 Hz the voice band of 1024 bins is [163, 2048): the scan reads
    the 861 bins from 163 to 1023 and stops at the end of the buffer. *)
Lemma pitchScan_low_sample_rate :
  startIndex (peakAt 45) ctx1000 = 163 /\
  endIndex (peakAt 45) ctx1000 = 2048 /\
  array_length (peakAt 45) = 1024 /\
  List.length (reads (pitchScan (peakAt 45) ctx1000)) = 861%nat /\
  hd 0 (reads (pitchScan (peakAt 45) ctx1000)) = 1023.
Proof. vm_compute. repeat split; reflexivity. Qed.

(** ** The controller *)

(** What the frame callback leaves alone. *)
Lemma analyzeAudio_keeps (data : Spectrum) (w : World) :
  isRecording (analyzeAudio data w) = isRecording w /\
  isPermissionGranted (analyzeAudio data w) = isPermissionGranted w /\
  analyserRef (analyzeAudio data w) = analyserRef w /\
  audioContextRef (analyzeAudio data w) = audioContextRef w /\
  streamRef (analyzeAudio data w) = streamRef w.
Proof.
  unfold analyzeAudio.
  destruct (analyserRef w) eqn:Ea, (dataArrayRef w) eqn:Ed; simpl;
    try (repeat split; congruence).
  destruct (audioContextRef w) eqn:Ec; simpl; repeat split; congruence.
Qed.

Lemma runFrame_keeps (data : Spectrum) (w : World) :
  isRecording (runFrame data w) = isRecording w /\
  isPermissionGranted (runFrame data w) = isPermissionGranted w.
Proof.
  unfold runFrame. destruct (frameQueue w) as [|id rest].
  - split; reflexivity.
  - destruct (analyzeAudio_keeps data
                (set_host rest (nextFrameId w) (effects w) w))
      as (H1 & H2 & _).
    rewrite H1, H2. split; reflexivity.
Qed.

Lemma stopRecording_state (w : World) :
  isRecording (stopRecording w) = false /\
  audioLevel (stopRecording w) = jnum 0 /\
  pitch (stopRecording w) = jnum 0 /\
  isPermissionGranted (stopRecording w) = isPermissionGranted w.
Proof.
  destruct w as [rec lvl pit perm [c|] an [s|] [id|] arr q n eff];
    repeat split; reflexivity.
Qed.

(** The refs that [stopRecording] clears, and the two it does not touch. *)
Lemma stopRecording_refs (w : World) :
  streamRef (stopRecording w) = None /\
  audioContextRef (stopRecording w) = None /\
  animationRef (stopRecording w) = None /\
  analyserRef (stopRecording w) = analyserRef w /\
  dataArrayRef (stopRecording w) = dataArrayRef w.
Proof.
  destruct w as [rec lvl pit perm [c|] an [s|] [id|] arr q n eff];
    repeat split; reflexivity.
Qed.

(** A second [stopRecording] changes nothing. *)
Lemma stopRecording_idempotent (w : World) :
  stopRecording (stopRecording w) = stopRecording w.
Proof.
  destruct w as [rec lvl pit perm [c|] an [s|] [id|] arr q n eff];
    reflexivity.
Qed.

Lemma startRecording_granted_state (stream : MediaStream) (ctx : AudioContext)
    (data : Spectrum) (w : World) :
  let w' := startRecording (Granted stream ctx data) w in
  isRecording w' = true /\ isPermissionGranted w' = true /\
  streamRef w' = Some stream /\ audioContextRef w' = Some ctx /\
  analyserRef w' = Some createAnalyser /\
  dataArrayRef w' = Some (getByteFrequencyData data (new_Uint8Array 1024)) /\
  audioLevel w' = computeLevel (getByteFrequencyData data (new_Uint8Array 1024)) /\
  pitch w' = computePitch (getByteFrequencyData data (new_Uint8Array 1024)) ctx /\
  animationRef w' = Some (nextFrameId w).
Proof.
  cbv zeta. repeat split; reflexivity.
Qed.

Lemma startRecording_permission (env : StartEnv) (w : World) :
  (isRecording w = true -> isPermissionGranted w = true) ->
  isRecording (startRecording env w) = true ->
  isPermissionGranted (startRecording env w) = true.
Proof.
  intros Hw.
  destruct env as [reason | stream | stream ctx | stream ctx data].
  - exact Hw.
  - intros _. reflexivity.
  - intros _. reflexivity.
  - intros _. reflexivity.
Qed.

(** While recording, permission has been granted: the property is kept by
    every operation. *)
Lemma run_op_permission (op : Op) (w : World) :
  (isRecording w = true -> isPermissionGranted w = true) ->
  isRecording (run_op w op) = true ->
  isPermissionGranted (run_op w op) = true.
Proof.
  intros Hw. destruct op as [env | | env | data]; cbn [run_op].
  - apply startRecording_permission. exact Hw.
  - destruct (stopRecording_state w) as (Hr & _). rewrite Hr. discriminate.
  - unfold handleToggle. destruct (isRecording w) eqn:Er.
    + destruct (stopRecording_state w) as (Hr & _). rewrite Hr. discriminate.
    + apply startRecording_permission. rewrite Er. discriminate.
  - destruct (runFrame_keeps data w) as (Hr & Hp). rewrite Hr, Hp. exact Hw.
Qed.

Lemma run_ops_permission (ops : list Op) :
  forall w,
    (isRecording w = true -> isPermissionGranted w = true) ->
    isRecording (run_ops ops w) = true ->
    isPermissionGranted (run_ops ops w) = true.
Proof.
  induction ops as [|op ops IH]; intros w Hw; cbn [run_ops fold_left].
  - exact Hw.
  - apply (IH (run_op w op)). apply run_op_permission. exact Hw.
Qed.

Lemma run_ops_app (ops ops' : list Op) (w : World) :
  run_ops (ops ++ ops') w = run_ops ops' (run_ops ops w).
Proof. unfold run_ops. apply fold_left_app. Qed.

(** *** The buffer of a session *)

Lemma getByteFrequencyData_length (data : Spectrum) (B : Uint8Array) :
  array_length (getByteFrequencyData data B) = array_length B.
Proof.
  unfold getByteFrequencyData, array_length.
  rewrite length_map, length_seq. reflexivity.
Qed.

Lemma analyzeAudio_dataArrayRef (data : Spectrum) (w : World) :
  dataArrayRef (analyzeAudio data w) =
  match analyserRef w, dataArrayRef w with
  | Some _, Some arr => Some (getByteFrequencyData data arr)
  | _, _ => dataArrayRef w
  end.
Proof.
  unfold analyzeAudio.
  destruct (analyserRef w), (dataArrayRef w) as [arr|] eqn:Ed;
    try (simpl; congruence).
  cbv zeta.
  destruct (audioContextRef
              (setAudioLevel (computeLevel (getByteFrequencyData data arr))
                 (set_dataArrayRef (Some (getByteFrequencyData data arr)) w)));
    reflexivity.
Qed.

Lemma analyzeAudio_sessionInv (data : Spectrum) (w : World) :
  sessionInv w -> sessionInv (analyzeAudio data w).
Proof.
  intros [Hrec Hlen]. unfold sessionInv.
  destruct (analyzeAudio_keeps data w) as (Er & _ & Ea & _).
  rewrite Er, Ea, analyzeAudio_dataArrayRef.
  destruct (analyserRef w) eqn:Ean, (dataArrayRef w) eqn:Ed; split;
    try assumption.
  - intros _. split; discriminate.
  - intros B [= <-]. rewrite getByteFrequencyData_length. now apply Hlen.
Qed.

Lemma run_op_sessionInv (op : Op) (w : World) :
  sessionInv w -> sessionInv (run_op w op).
Proof.
  assert (Hstop : forall w0, sessionInv w0 -> sessionInv (stopRecording w0)).
  { intros w0 [_ Hlen]. unfold sessionInv.
    destruct (stopRecording_state w0) as (Er & _).
    destruct (stopRecording_refs w0) as (_ & _ & _ & _ & Ed).
    rewrite Er, Ed. split; [discriminate | assumption]. }
  assert (Hstart : forall env w0, sessionInv w0 ->
                                  sessionInv (startRecording env w0)).
  { intros env w0 Hw0. pose proof Hw0 as [Hrec Hlen].
    destruct env as [reason | stream | stream ctx | stream ctx d].
    - split; [exact Hrec | exact Hlen].
    - split; [exact Hrec | exact Hlen].
    - split; [|exact Hlen].
      intros Hr. split; [discriminate|]. now apply Hrec.
    - cbn [startRecording]. unfold configureAndRun.
      apply analyzeAudio_sessionInv. split.
      + intros _. split; discriminate.
      + intros B [= <-]. reflexivity. }
  intros Hw. destruct op as [env | | env | data]; cbn [run_op].
  - now apply Hstart.
  - now apply Hstop.
  - unfold handleToggle. destruct (isRecording w); [now apply Hstop | now apply Hstart].
  - unfold runFrame. destruct (frameQueue w) as [|id rest]; [assumption|].
    apply analyzeAudio_sessionInv. exact Hw.
Qed.

(** The half of the session invariant that holds: in a reachable world that
    is recording, analyser and buffer are set; and a buffer always has 1024
    bins, so its mean is defined. *)
Lemma reachable_sessionInv (w : World) : reachable w -> sessionInv w.
Proof.
  intros [ops <-].
  assert (H : forall w0, sessionInv w0 -> sessionInv (run_ops ops w0)).
  { induction ops as [|op ops IH]; intros w0 Hw0; cbn [run_ops fold_left].
    - exact Hw0.
    - apply (IH (run_op w0 op)). now apply run_op_sessionInv. }
  apply H. split; [discriminate|]. intros B. discriminate.
Qed.

(** C3: when [getUserMedia] rejects, [startRecording] logs the error and
    shows the alert, and does nothing else: the React state, the refs and
    the frame queue are those of before.  So recording stays off,
    permission stays ungranted and no session resource appears where there
    was none. *)
Theorem startRecording_rejected_changes_nothing (reason : string) (w : World) :
  let w' := startRecording (GumRejects reason) w in
  effects w' = effects w ++ [ConsoleError micErrorLog; Alert micErrorAlert] /\
  sameController w w' /\
  (isRecording w = false -> isRecording w' = false) /\
  (isPermissionGranted w = false -> isPermissionGranted w' = false) /\
  (noSessionResources w -> noSessionResources w').
Proof.
  cbv zeta. split; [|split; [|split; [|split]]].
  - simpl. rewrite <- app_assoc. reflexivity.
  - unfold sameController. repeat split; reflexivity.
  - intros H. exact H.
  - intros H. exact H.
  - intros H. exact H.
Qed.

Lemma startRecording_rejected_changes_nothing_witness :
  let w' := startRecording (GumRejects "NotAllowedError") initial in
  effects w' = [ConsoleError micErrorLog; Alert micErrorAlert] /\
  isRecording w' = false /\ isPermissionGranted w' = false /\
  noSessionResources w'.
Proof.
  destruct (startRecording_rejected_changes_nothing "NotAllowedError" initial)
    as (He & _ & Hr & Hp & Hn).
  cbv zeta. split; [exact He|]. split; [apply Hr; reflexivity|].
  split; [apply Hp; reflexivity|].
  apply Hn. repeat split; reflexivity.
Defined.

(** C4: after a granted start and a stop, in whatever world they begin,
    recording is off and level and pitch are 0, but the analyser and the
    buffer are still referenced: [stopRecording] clears the stream, the
    audio context and the frame id, and leaves [analyserRef] and
    [dataArrayRef] as they were.  The world is a reachable one. *)
Theorem stopRecording_leaves_analyser_and_buffer (ops : list Op)
    (stream : MediaStream) (ctx : AudioContext) (data : Spectrum) :
  let w := run_ops (ops ++ [OpStart (Granted stream ctx data); OpStop]) initial in
  reachable w /\
  isRecording w = false /\ audioLevel w = jnum 0 /\ pitch w = jnum 0 /\
  streamRef w = None /\ audioContextRef w = None /\ animationRef w = None /\
  analyserRef w = Some createAnalyser /\
  dataArrayRef w = Some (getByteFrequencyData data (new_Uint8Array 1024)).
Proof.
  cbv zeta. split; [eexists; reflexivity|].
  rewrite run_ops_app. cbn [run_ops fold_left run_op].
  set (w0 := run_ops ops initial).
  destruct (stopRecording_state (startRecording (Granted stream ctx data) w0))
    as (Hr & Hl & Hp & _).
  destruct (stopRecording_refs (startRecording (Granted stream ctx data) w0))
    as (Hs & Hc & Ha & Han & Hd).
  destruct (startRecording_granted_state stream ctx data w0)
    as (_ & _ & _ & _ & Han' & Hd' & _).
  rewrite Han, Hd, Han', Hd'. repeat split; assumption.
Qed.

(** C5: a second [stopRecording] gives the world of the first, in which
    recording is off, level and pitch are 0 and the stream, the audio
    context and the frame id are cleared; after a granted start that world
    still references the analyser and the buffer. *)
Theorem stopRecording_twice_after_start (stream : MediaStream)
    (ctx : AudioContext) (data : Spectrum) (w : World) :
  let w1 := stopRecording (startRecording (Granted stream ctx data) w) in
  let w2 := stopRecording w1 in
  w2 = w1 /\
  isRecording w2 = false /\ audioLevel w2 = jnum 0 /\ pitch w2 = jnum 0 /\
  streamRef w2 = None /\ audioContextRef w2 = None /\ animationRef w2 = None /\
  analyserRef w2 = Some createAnalyser /\
  dataArrayRef w2 = Some (getByteFrequencyData data (new_Uint8Array 1024)).
Proof.
  cbv zeta. rewrite stopRecording_idempotent.
  set (w0 := startRecording (Granted stream ctx data) w).
  destruct (stopRecording_state w0) as (Hr & Hl & Hp & _).
  destruct (stopRecording_refs w0) as (Hs & Hc & Ha & Han & Hd).
  destruct (startRecording_granted_state stream ctx data w)
    as (_ & _ & _ & _ & Han' & Hd' & _).
  fold w0 in Han', Hd'.
  rewrite Han, Hd, Han', Hd'. repeat split; assumption.
Qed.

(** C6: in every world reached from the initial one by starts (however
    they go), stops, toggles and frames, recording implies that permission
    has been granted. *)
Theorem recording_implies_permission (w : World) :
  reachable w ->
  isRecording w = true -> isPermissionGranted w = true.
Proof.
  intros [ops <-]. apply run_ops_permission. discriminate.
Qed.

Lemma recording_implies_permission_witness :
  isPermissionGranted
    (run_ops [OpStart (Granted mic ctx44100 silence)] initial) = true.
Proof.
  apply recording_implies_permission.
  - exists [OpStart (Granted mic ctx44100 silence)]. reflexivity.
  - reflexivity.
Defined.

(** The first guard of [analyzeAudio] as it is written: when [analyserRef]
    or [dataArrayRef] is empty a run changes nothing at all.  Both refs are
    empty only before the first granted start, where no frame runs. *)
Lemma analyzeAudio_skips_without_analyser_or_buffer (data : Spectrum)
    (w : World) :
  analyserRef w = None \/ dataArrayRef w = None ->
  analyzeAudio data w = w.
Proof.
  intros [H | H]; unfold analyzeAudio; rewrite H.
  - reflexivity.
  - destruct (analyserRef w); reflexivity.
Qed.

Lemma analyzeAudio_skips_without_analyser_or_buffer_witness :
  analyzeAudio loud initial = initial.
Proof.
  apply analyzeAudio_skips_without_analyser_or_buffer.
  left. reflexivity.
Defined.

(** After a stop the two refs of that guard are still set: a frame callback
    left in the queue (here by two starts, of which the stop cancels the
    second) runs past the guard, publishes a level and stops at the missing
    audio context. *)
Lemma stale_frame_after_stop_publishes_level :
  let w := run_ops [OpStart (Granted mic ctx44100 silence);
                    OpStart (Granted mic ctx44100 silence);
                    OpStop] initial in
  isRecording w = false /\ audioLevel w = jnum 0 /\ frameQueue w = [1%positive] /\
  isRecording (runFrame loud w) = false /\
  jeq (audioLevel (runFrame loud w)) (jnum 1) /\
  frameQueue (runFrame loud w) = [].
Proof.
  vm_compute. repeat split; reflexivity.
Qed.

(** C8: a frame that runs after the session was torn down is not skipped.
    Two granted starts queue two frame callbacks, the stop cancels the one
    in [animationRef] and leaves the other; [stopRecording] does not clear
    [analyserRef] and [dataArrayRef], so when that frame runs the guard on
    them lets it pass: it reads the analyser and publishes a level (1 for
    a spectrum of 255s) on a component that is not recording, and returns
    only at the missing audio context. *)
Theorem stale_frame_after_teardown_is_not_skipped (s1 s2 : MediaStream)
    (c1 c2 : AudioContext) (d1 d2 data : Spectrum) :
  let w := run_ops [OpStart (Granted s1 c1 d1); OpStart (Granted s2 c2 d2);
                    OpStop] initial in
  reachable w /\
  isRecording w = false /\ audioContextRef w = None /\
  streamRef w = None /\ animationRef w = None /\
  audioLevel w = jnum 0 /\ frameQueue w = [1%positive] /\
  analyserRef w <> None /\ dataArrayRef w <> None /\
  audioLevel (runFrame data w)
  = computeLevel (getByteFrequencyData data
                    (getByteFrequencyData d2 (new_Uint8Array 1024))) /\
  jeq (audioLevel (runFrame loud w)) (jnum 1) /\
  runFrame loud w <> w.
Proof.
  cbv zeta. split; [eexists; reflexivity|].
  assert (H1 : jeq (audioLevel
                      (runFrame loud
                         (run_ops [OpStart (Granted s1 c1 d1);
                                   OpStart (Granted s2 c2 d2); OpStop]
                            initial))) (jnum 1))
    by (vm_compute; reflexivity).
  repeat (split; [exact H1 || reflexivity || discriminate|]).
  intros E. rewrite E in H1. vm_compute in H1. discriminate H1.
Qed.

(** End to end: a granted start whose first frame sees a single peak in
    bin 45 publishes a pitch above 1; at a sample rate that empties the
    voice band it publishes [NaN], and the orb is scaled by [NaN]. *)
Lemma start_publishes_unnormalised_pitch :
  pitch (run_ops [OpStart (Granted mic ctx44100 (peakSpectrum 45))] initial)
    = Fin (45 # 43) /\
  pitch (run_ops [OpStart (Granted mic ctx4096000 silence)] initial) = NaN /\
  pulseSize
    (renderOrb (run_ops [OpStart (Granted mic ctx4096000 silence)] initial))
    = NaN.
Proof. vm_compute. repeat split; reflexivity. Qed.

(** ** Presentation *)

(** C9: with a finite level and a finite pitch in the state, the orb is
    drawn with pulse scale [1 + (level + pitch) * 0.3] and glow intensity
    [(level + pitch) * 30]. *)
Theorem orb_pulse_and_glow (w : World) (level p : Q) :
  audioLevel w = Fin level ->
  pitch w = Fin p ->
  pulseSize (renderOrb w) = Fin (1 + (level + p) * 0.3) /\
  glowIntensity (renderOrb w) = Fin ((level + p) * 30).
Proof.
  intros Hl Hp. unfold renderOrb, NeonOrbStyle. rewrite Hl, Hp.
  split; reflexivity.
Qed.

Lemma orb_pulse_and_glow_witness :
  pulseSize (renderOrb initial) = Fin (1 + (0 + 0) * 0.3) /\
  glowIntensity (renderOrb initial) = Fin ((0 + 0) * 30).
Proof.
  apply orb_pulse_and_glow; reflexivity.
Defined.

(** The formulas as [NeonOrbStyle] has them, for all numbers. *)
Lemma NeonOrbStyle_formulas (isActive : bool) (volume p : jsnum) :
  pulseSize (NeonOrbStyle isActive volume p) =
    jadd (jnum 1) (jmul (jadd volume p) (Fin 0.3)) /\
  glowIntensity (NeonOrbStyle isActive volume p) =
    jmul (jadd volume p) (jnum 30).
Proof. split; reflexivity. Qed.

(** * Further properties of the signal computation *)

Lemma binIndex_length (f : Z) (B B' : Uint8Array) (ctx : AudioContext) :
  array_length B = array_length B' -> binIndex f B ctx = binIndex f B' ctx.
Proof. intros E. unfold binIndex. rewrite E. reflexivity. Qed.

Lemma first_argmax_ext (B B' : Uint8Array) (lo hi m : Z) :
  (forall j, lo <= j < hi -> binValue B j = binValue B' j) ->
  first_argmax B lo hi m -> first_argmax B' lo hi m.
Proof.
  intros Hag (Hr & Hub & Hf). repeat split; try lia.
  - intros j Hj. rewrite <- (Hag j Hj), <- (Hag m Hr). now apply Hub.
  - intros j Hj. rewrite <- (Hag j), <- (Hag m Hr) by lia. now apply Hf.
Qed.

(** The index the scan ends on, from what the band holds. *)
Lemma pitchScan_maxIndex_peak (B : Uint8Array) (ctx : AudioContext) (m : Z) :
  first_argmax B (startIndex B ctx)
    (Z.min (endIndex B ctx) (array_length B)) m ->
  0 < binValue B m ->
  maxIndex (pitchScan B ctx) = m.
Proof.
  intros Hm Hpos.
  destruct (pitchScan_first_argmax B ctx) as [Hp Hz]. cbv zeta in Hp, Hz.
  destruct (Z_lt_le_dec 0 (maxValue (pitchScan B ctx))) as [H | H].
  - destruct (Hp H) as [Hfa _]. exact (first_argmax_unique _ _ _ _ _ Hfa Hm).
  - destruct (Hz H) as [_ Hall]. destruct Hm as (Hr & _).
    rewrite (Hall m Hr) in Hpos. lia.
Qed.

Lemma pitchScan_maxIndex_silent (B : Uint8Array) (ctx : AudioContext) :
  (forall j, startIndex B ctx <= j < Z.min (endIndex B ctx) (array_length B) ->
             binValue B j = 0) ->
  maxIndex (pitchScan B ctx) = 0.
Proof.
  intros Hall.
  destruct (pitchScan_first_argmax B ctx) as [Hp Hz]. cbv zeta in Hp, Hz.
  destruct (Z_lt_le_dec 0 (maxValue (pitchScan B ctx))) as [H | H].
  - destruct (Hp H) as [(Hr & _) Hv]. rewrite (Hall _ Hr) in Hv. lia.
  - now destruct (Hz H).
Qed.

Lemma pitchScan_maxIndex_nonneg (B : Uint8Array) (ctx : AudioContext) :
  0 <= maxIndex (pitchScan B ctx).
Proof.
  destruct (pitchScan_first_argmax B ctx) as [Hp Hz]. cbv zeta in Hp, Hz.
  pose proof (startIndex_nonneg B ctx) as Hs0.
  destruct (Z_lt_le_dec 0 (maxValue (pitchScan B ctx))) as [H | H].
  - destruct (Hp H) as [(Hr & _) _]. lia.
  - destruct (Hz H) as [E _]. lia.
Qed.

Lemma computePitch_in_range (B : Uint8Array) (ctx : AudioContext) :
  pitchInRange (computePitch B ctx).
Proof.
  pose proof (startIndex_le_endIndex B ctx) as Hle.
  destruct (Z.eq_dec (endIndex B ctx) (startIndex B ctx)) as [E | Hne].
  - left. unfold computePitch, pitchScan. rewrite E, Z.sub_diag.
    rewrite scan_equation, Z.ltb_irrefl. reflexivity.
  - right. rewrite computePitch_value by lia. eexists. split; [reflexivity|].
    apply Qle_shift_div_l.
    + rewrite <- (Zlt_Qlt 0). lia.
    + rewrite Qmult_0_l, <- (Zle_Qle 0). apply pitchScan_maxIndex_nonneg.
Qed.

Lemma binValue_zeros (n j : Z) : binValue (new_Uint8Array n) j = 0.
Proof.
  unfold binValue, array_get, new_Uint8Array.
  destruct (j <? 0); [reflexivity|].
  destruct (nth_error (repeat x00 (Z.to_nat n)) (Z.to_nat j)) as [v|] eqn:E;
    [|reflexivity].
  apply nth_error_In, repeat_spec in E. subst v. reflexivity.
Qed.

Lemma first_argmax_peak45 : first_argmax (peakAt 45) 3 46 45.
Proof.
  pose proof (spec_argmax_first (peakAt 45) 3 46 ltac:(lia)) as Ha.
  replace (spec_argmax (peakAt 45) 3 46) with 45 in Ha
    by (vm_compute; reflexivity).
  exact Ha.
Qed.

(** X: on a voice band that is not empty, when some bin of the band inside
    the buffer is not 0, the pitch is the lowest index [m] of the largest
    such bin divided by the width of the band. *)
Theorem computePitch_peak (B : Uint8Array) (ctx : AudioContext) (m : Z) :
  startIndex B ctx < endIndex B ctx ->
  first_argmax B (startIndex B ctx)
    (Z.min (endIndex B ctx) (array_length B)) m ->
  0 < binValue B m ->
  computePitch B ctx =
  Fin (inject_Z m / inject_Z (endIndex B ctx - startIndex B ctx)).
Proof.
  intros Hlt Hm Hpos. rewrite (computePitch_value B ctx Hlt).
  rewrite (pitchScan_maxIndex_peak B ctx m Hm Hpos). reflexivity.
Qed.

Lemma computePitch_peak_witness :
  computePitch (peakAt 45) ctx44100 =
  Fin (inject_Z 45
       / inject_Z (endIndex (peakAt 45) ctx44100
                   - startIndex (peakAt 45) ctx44100)).
Proof.
  apply computePitch_peak.
  - vm_compute. reflexivity.
  - replace (startIndex (peakAt 45) ctx44100) with 3
      by (vm_compute; reflexivity).
    replace (Z.min (endIndex (peakAt 45) ctx44100) (array_length (peakAt 45)))
      with 46 by (vm_compute; reflexivity).
    exact first_argmax_peak45.
  - vm_compute. reflexivity.
Defined.

(** X: on a voice band that is not empty, when every bin of the band
    inside the buffer is 0, the pitch is 0. *)
Theorem computePitch_silent_band (B : Uint8Array) (ctx : AudioContext) :
  startIndex B ctx < endIndex B ctx ->
  (forall j, startIndex B ctx <= j < Z.min (endIndex B ctx) (array_length B) ->
             binValue B j = 0) ->
  jeq (computePitch B ctx) (jnum 0).
Proof.
  intros Hlt Hall. rewrite (computePitch_value B ctx Hlt).
  rewrite (pitchScan_maxIndex_silent B ctx Hall).
  unfold jeq, jnum. unfold Qdiv. apply Qmult_0_l.
Qed.

Lemma computePitch_silent_band_witness :
  jeq (computePitch (new_Uint8Array 1024) ctx44100) (jnum 0).
Proof.
  apply computePitch_silent_band.
  - vm_compute. reflexivity.
  - intros j _. apply binValue_zeros.
Defined.

(** X: the pitch depends only on the length of the buffer and on the bins
    of the voice band: two buffers of one length that agree on the band
    inside the buffer have the same pitch. *)
Theorem computePitch_ignores_bins_outside_band (B B' : Uint8Array)
    (ctx : AudioContext) :
  array_length B = array_length B' ->
  (forall j, startIndex B ctx <= j < Z.min (endIndex B ctx) (array_length B) ->
             binValue B j = binValue B' j) ->
  computePitch B ctx = computePitch B' ctx.
Proof.
  intros Hlen Hag.
  assert (Es : startIndex B' ctx = startIndex B ctx)
    by (symmetry; now apply binIndex_length).
  assert (Ee : endIndex B' ctx = endIndex B ctx)
    by (symmetry; now apply binIndex_length).
  assert (Em : maxIndex (pitchScan B' ctx) = maxIndex (pitchScan B ctx)).
  { destruct (pitchScan_first_argmax B ctx) as [Hp Hz]. cbv zeta in Hp, Hz.
    destruct (Z_lt_le_dec 0 (maxValue (pitchScan B ctx))) as [H | H].
    - destruct (Hp H) as [Hfa Hv].
      apply pitchScan_maxIndex_peak.
      + rewrite Es, Ee, <- Hlen. exact (first_argmax_ext _ _ _ _ _ Hag Hfa).
      + destruct Hfa as (Hr & _). rewrite <- (Hag _ Hr). lia.
    - destruct (Hz H) as [E0 Hall]. rewrite E0.
      apply pitchScan_maxIndex_silent. rewrite Es, Ee, <- Hlen.
      intros j Hj. rewrite <- (Hag j Hj). now apply Hall. }
  unfold computePitch. rewrite Em, Es, Ee. reflexivity.
Qed.

Lemma computePitch_ignores_bins_outside_band_witness :
  computePitch (peakAt 500) ctx44100
  = computePitch (new_Uint8Array 1024) ctx44100.
Proof.
  apply computePitch_ignores_bins_outside_band.
  - vm_compute. reflexivity.
  - replace (startIndex (peakAt 500) ctx44100) with 3
      by (vm_compute; reflexivity).
    replace (Z.min (endIndex (peakAt 500) ctx44100) (array_length (peakAt 500)))
      with 46 by (vm_compute; reflexivity).
    intros j Hj. rewrite binValue_zeros.
    unfold binValue, array_get, peakAt.
    destruct (j <? 0) eqn:E; [reflexivity|].
    rewrite nth_error_app1 by (rewrite repeat_length; lia).
    destruct (nth_error (repeat x00 500) (Z.to_nat j)) as [v|] eqn:En;
      [|reflexivity].
    apply nth_error_In, repeat_spec in En. subst v. reflexivity.
Defined.

Lemma sumBins_zero_iff (B : Uint8Array) :
  sumBins B = 0 <-> Forall (fun v => byteVal v = 0) B.
Proof.
  induction B as [|v B IH]; simpl.
  - split; [constructor | reflexivity].
  - pose proof (byteVal_range v) as Hv.
    pose proof (sumBins_range B) as Hs.
    split.
    + intros H. constructor; [lia|]. apply IH. lia.
    + intros H. inversion H as [|? ? Hv0 HB]; subst.
      apply IH in HB. lia.
Qed.

(** X: the level of a buffer that is not empty is 0 exactly when every
    bin is 0. *)
Theorem computeLevel_zero_iff_silent (B : Uint8Array) :
  B <> [] ->
  (jeq (computeLevel B) (jnum 0) <-> Forall (fun v => byteVal v = 0) B).
Proof.
  intros HB. pose proof (array_length_pos B HB) as Hlen.
  rewrite <- sumBins_zero_iff, <- reduce_sum_sumBins.
  unfold computeLevel, jnum, jdiv.
  rewrite (Qeq_bool_inject_Z_pos (array_length B) Hlen).
  rewrite (Qeq_bool_inject_Z_pos 255) by lia.
  unfold jeq.
  assert (Hn : ~ (inject_Z (array_length B) == 0)%Q).
  { intros E. unfold Qeq in E. simpl in E. lia. }
  assert (H255 : ~ (inject_Z 255 == 0)%Q) by discriminate.
  split.
  - intros E.
    assert (E' : (inject_Z (reduce_sum B) == 0)%Q).
    { rewrite <- (Qmult_div_r (inject_Z (reduce_sum B))
                    (inject_Z (array_length B)) Hn).
      rewrite <- (Qmult_div_r (inject_Z (reduce_sum B) / inject_Z (array_length B))
                    (inject_Z 255) H255).
      rewrite E. ring. }
    unfold Qeq in E'. simpl in E'. lia.
  - intros E. rewrite E. reflexivity.
Qed.

Lemma computeLevel_zero_iff_silent_witness :
  jeq (computeLevel (new_Uint8Array 1024)) (jnum 0)
  <-> Forall (fun v => byteVal v = 0) (new_Uint8Array 1024).
Proof.
  apply computeLevel_zero_iff_silent. discriminate.
Defined.

(** X: for every buffer and sample rate the voice band starts at an index
    that is not negative and does not end before it starts; at a sample
    rate of 2000 Hz or more it also ends inside the buffer. *)
Theorem voice_band_within_buffer (B : Uint8Array) (ctx : AudioContext) :
  0 <= startIndex B ctx <= endIndex B ctx /\
  ((2000 <= sampleRate ctx)%Q -> endIndex B ctx <= array_length B).
Proof.
  split.
  - split; [apply startIndex_nonneg | apply startIndex_le_endIndex].
  - intros Hsr. unfold endIndex, binIndex.
    rewrite <- (Qfloor_Z (array_length B)) at 2.
    apply Qfloor_resp_le.
    pose proof (half_sampleRate_pos ctx) as Hh.
    apply Qle_shift_div_r; [assumption|].
    rewrite inject_Z_mult.
    assert (Hlen : (0 <= inject_Z (array_length B))%Q).
    { rewrite <- (Zle_Qle 0). unfold array_length. lia. }
    assert (Hhalf : (inject_Z 1000 <= sampleRate ctx / 2)%Q).
    { apply Qle_shift_div_l; [reflexivity|].
      change (inject_Z 1000 * 2)%Q with 2000%Q. exact Hsr. }
    rewrite (Qmult_comm (inject_Z (array_length B))).
    apply Qmult_le_compat_r; assumption.
Qed.

Lemma voice_band_within_buffer_witness :
  0 <= startIndex (peakAt 45) ctx1000 <= endIndex (peakAt 45) ctx1000 /\
  endIndex (peakAt 45) ctx44100 <= array_length (peakAt 45).
Proof.
  split.
  - exact (proj1 (voice_band_within_buffer (peakAt 45) ctx1000)).
  - apply (proj2 (voice_band_within_buffer (peakAt 45) ctx44100)).
    vm_compute. discriminate.
Defined.

(** X: when the sample rate is a whole number [n], a bin index is the
    integer quotient of [2 * freq * length] by [n]. *)
Theorem binIndex_integer_sample_rate (freq : Z) (B : Uint8Array)
    (ctx : AudioContext) :
  sampleRate_den ctx = 1%positive ->
  binIndex freq B ctx
  = (2 * freq * array_length B) / Z.pos (sampleRate_num ctx).
Proof.
  intros Hden. unfold binIndex, sampleRate. rewrite Hden.
  rewrite Zdiv_Qdiv. apply Qfloor_comp.
  change (Z.pos (sampleRate_num ctx) # 1)
    with (inject_Z (Z.pos (sampleRate_num ctx))).
  rewrite !inject_Z_mult.
  assert (Hn : ~ (inject_Z (Z.pos (sampleRate_num ctx)) == 0)%Q)
    by discriminate.
  change (inject_Z 2) with 2%Q. field. exact Hn.
Qed.

Lemma binIndex_integer_sample_rate_witness :
  binIndex 80 (peakAt 45) ctx44100
  = (2 * 80 * array_length (peakAt 45)) / Z.pos (sampleRate_num ctx44100).
Proof.
  apply binIndex_integer_sample_rate. reflexivity.
Defined.

Lemma scan_reads_cover (B : Uint8Array) (stop i : Z) (st : ScanState) (j : Z) :
  In j (reads st) \/ i <= j < Z.min stop (array_length B) ->
  In j (reads (scan B stop i st)).
Proof.
  functional induction (scan B stop i st); intros Hj.
  - apply andb_prop in e. destruct e as [H1 H2].
    apply Z.ltb_lt in H1. apply Z.ltb_lt in H2.
    apply IHs. simpl. destruct Hj as [Hj | Hj]; [tauto|].
    destruct (Z.eq_dec j i) as [->|Hne]; [tauto | right; lia].
  - apply andb_prop in e. destruct e as [H1 H2].
    apply Z.ltb_lt in H1. apply Z.ltb_lt in H2.
    apply IHs. simpl. destruct Hj as [Hj | Hj]; [tauto|].
    destruct (Z.eq_dec j i) as [->|Hne]; [tauto | right; lia].
  - apply andb_prop in e. destruct e as [H1 H2].
    apply Z.ltb_lt in H1. apply Z.ltb_lt in H2.
    apply IHs. simpl. destruct Hj as [Hj | Hj]; [tauto|].
    destruct (Z.eq_dec j i) as [->|Hne]; [tauto | right; lia].
  - destruct Hj as [Hj | Hj]; [assumption|].
    apply andb_false_iff in e. destruct e as [E | E]; apply Z.ltb_ge in E; lia.
Qed.

(** X: the pitch scan reads every bin of the voice band that lies inside
    the buffer, and no other index. *)
Theorem pitchScan_reads_exactly_band (B : Uint8Array) (ctx : AudioContext)
    (j : Z) :
  In j (reads (pitchScan B ctx)) <->
  startIndex B ctx <= j < Z.min (endIndex B ctx) (array_length B).
Proof.
  unfold pitchScan. split.
  - intros Hin.
    pose proof (scan_reads_from
                  (fun k => startIndex B ctx <= k
                            < Z.min (endIndex B ctx) (array_length B))
                  B (endIndex B ctx) (startIndex B ctx) scan_init) as H.
    assert (HF : Forall
                   (fun k => startIndex B ctx <= k
                             < Z.min (endIndex B ctx) (array_length B))
                   (reads (scan B (endIndex B ctx) (startIndex B ctx)
                             scan_init))).
    { apply H; [|constructor]. intros k Hk1 Hk2 Hk3. lia. }
    rewrite Forall_forall in HF. apply HF. exact Hin.
  - intros Hj. apply scan_reads_cover. right. exact Hj.
Qed.

(** * Further properties of the controller *)

Local Opaque computeLevel computePitch getByteFrequencyData new_Uint8Array.

Lemma run_op_uiInv (w : World) (op : Op) :
  uiInv w -> uiAllows w op = true -> uiInv (run_op w op).
Proof.
  destruct w as [rec lvl pit perm ctx an st anim arr q n eff].
  unfold uiInv. simpl. intros [Hidle Hrec] Hallow.
  destruct rec.
  - destruct (Hrec eq_refl) as (Hc & Ha & Hd & id & Hq & Hanim).
    subst q anim.
    destruct ctx as [c|]; [|congruence].
    destruct an as [a|]; [|congruence].
    destruct arr as [B|]; [|congruence].
    destruct op as [env | | env | data]; simpl in *.
    + discriminate Hallow.
    + destruct st; simpl; rewrite Pos.eqb_refl; simpl;
        (split; [intros _; repeat split | discriminate]).
    + destruct st; simpl; rewrite Pos.eqb_refl; simpl;
        (split; [intros _; repeat split | discriminate]).
    + split; [discriminate|]. intros _.
      repeat split; try discriminate. eexists. split; reflexivity.
  - destruct (Hidle eq_refl) as (Hq & Hl & Hp). subst q lvl pit.
    assert (Hstart : forall env,
      uiInv (startRecording env
               {| isRecording := false; audioLevel := jnum 0; pitch := jnum 0;
                  isPermissionGranted := perm; audioContextRef := ctx;
                  analyserRef := an; streamRef := st; animationRef := anim;
                  dataArrayRef := arr; frameQueue := []; nextFrameId := n;
                  effects := eff |})).
    { intros [reason | stream | stream c | stream c data]; unfold uiInv; simpl.
      - split; [intros _; repeat split | discriminate].
      - split; [intros _; repeat split | discriminate].
      - split; [intros _; repeat split | discriminate].
      - split; [discriminate|]. intros _.
        repeat split; try discriminate. eexists. split; reflexivity. }
    destruct op as [env | | env | data].
    + apply Hstart.
    + unfold uiInv. simpl.
      destruct st, ctx, anim; simpl;
        (split; [intros _; repeat split | discriminate]).
    + apply Hstart.
    + unfold uiInv. simpl. split; [intros _; repeat split | discriminate].
Qed.

Lemma uiReachable_uiInv (w : World) : uiReachable w -> uiInv w.
Proof.
  induction 1 as [|w op Hw IH Hallow].
  - split; [intros _; repeat split | discriminate].
  - now apply run_op_uiInv.
Qed.

Local Transparent computeLevel computePitch getByteFrequencyData new_Uint8Array.

(** X: driven by its buttons, the component publishes signals only while
    recording: in every idle world no frame callback is queued and level
    and pitch are 0, and a frame of the host changes nothing. *)
Theorem idle_has_no_frames_and_no_signal (w : World) (data : Spectrum) :
  uiReachable w ->
  isRecording w = false ->
  frameQueue w = [] /\ audioLevel w = jnum 0 /\ pitch w = jnum 0 /\
  runFrame data w = w.
Proof.
  intros Hw Hidle. destruct (uiReachable_uiInv w Hw) as [Hi _].
  destruct (Hi Hidle) as (Hq & Hl & Hp).
  repeat split; try assumption.
  unfold runFrame. rewrite Hq. reflexivity.
Qed.

Lemma idle_has_no_frames_and_no_signal_witness :
  let w := run_op (run_op initial (OpStart (Granted mic ctx44100 loud))) OpStop in
  frameQueue w = [] /\ audioLevel w = jnum 0 /\ pitch w = jnum 0 /\
  runFrame loud w = w.
Proof.
  cbv zeta. apply idle_has_no_frames_and_no_signal.
  - apply ui_step; [apply ui_step; [apply ui_initial | reflexivity] | reflexivity].
  - reflexivity.
Defined.

(** X: driven by its buttons, a recording component has its audio context,
    analyser and buffer referenced and exactly one frame callback queued,
    the one whose id is in [animationRef]: the analysis loop is alive and
    is not duplicated. *)
Theorem recording_has_one_frame_queued (w : World) :
  uiReachable w ->
  isRecording w = true ->
  audioContextRef w <> None /\ analyserRef w <> None /\
  dataArrayRef w <> None /\
  exists id, frameQueue w = [id] /\ animationRef w = Some id.
Proof.
  intros Hw Hrec. destruct (uiReachable_uiInv w Hw) as [_ Hr].
  exact (Hr Hrec).
Qed.

Lemma recording_has_one_frame_queued_witness :
  let w := run_op (run_op initial (OpStart (Granted mic ctx44100 loud)))
             (OpFrame silence) in
  audioContextRef w <> None /\ analyserRef w <> None /\
  dataArrayRef w <> None /\
  exists id, frameQueue w = [id] /\ animationRef w = Some id.
Proof.
  cbv zeta. apply recording_has_one_frame_queued.
  - apply ui_step; [apply ui_step; [apply ui_initial | reflexivity] | reflexivity].
  - reflexivity.
Defined.





(** X: a second [stopRecording] changes nothing at all, whatever the world:
    no state, no ref, no queue entry and no further effect. *)
Theorem stopRecording_again_changes_nothing (w : World) :
  stopRecording (stopRecording w) = stopRecording w /\
  effects (stopRecording (stopRecording w)) = effects (stopRecording w).
Proof.
  rewrite stopRecording_idempotent. split; reflexivity.
Qed.





(** X: the orb and the button under it do the same; with a device that is
    granted a click flips [isRecording], and with a device that is refused
    a click on an idle component leaves it idle. *)
Theorem handleToggle_flips (w : World) :
  (forall env, clickControl env w = handleToggle env w) /\
  (forall stream ctx data,
      isRecording (handleToggle (Granted stream ctx data) w)
      = negb (isRecording w)) /\
  (forall reason,
      isRecording w = false ->
      isRecording (handleToggle (GumRejects reason) w) = false).
Proof.
  repeat split.
  - intros env. unfold clickControl, controlButton, handleToggle.
    destruct (isRecording w); reflexivity.
  - intros stream ctx data. unfold handleToggle.
    destruct (isRecording w) eqn:E.
    + now destruct (stopRecording_state w) as (Hr & _).
    + reflexivity.
  - intros reason E. unfold handleToggle. rewrite E. exact E.
Qed.

Lemma handleToggle_flips_witness :
  isRecording (handleToggle (GumRejects "NotFoundError") initial) = false.
Proof.
  destruct (handleToggle_flips initial) as (_ & _ & H).
  apply H. reflexivity.
Defined.

Lemma run_op_keeps_permission (op : Op) (w : World) :
  isPermissionGranted w = true -> isPermissionGranted (run_op w op) = true.
Proof.
  assert (Hstart : forall env,
             isPermissionGranted w = true ->
             isPermissionGranted (startRecording env w) = true).
  { intros [reason | stream | stream c | stream c data] Hw;
      [exact Hw | reflexivity | reflexivity | reflexivity]. }
  assert (Hstop : isPermissionGranted w = true ->
                  isPermissionGranted (stopRecording w) = true).
  { intros Hw. destruct (stopRecording_state w) as (_ & _ & _ & Hp).
    now rewrite Hp. }
  intros Hw. destruct op as [env | | env | data]; cbn [run_op].
  - now apply Hstart.
  - now apply Hstop.
  - unfold handleToggle. destruct (isRecording w); [now apply Hstop | now apply Hstart].
  - destruct (runFrame_keeps data w) as (_ & Hp). now rewrite Hp.
Qed.

(** X: a granted permission is never taken back: whatever happens next,
    [isPermissionGranted] stays true and the status line never returns to
    the invitation to click start. *)
Theorem permission_is_never_revoked (ops : list Op) (w : World) :
  isPermissionGranted w = true ->
  isPermissionGranted (run_ops ops w) = true /\
  statusIndicator (run_ops ops w) <> ClickStart.
Proof.
  intros Hw.
  assert (H : isPermissionGranted (run_ops ops w) = true).
  { revert w Hw. induction ops as [|op ops IH]; intros w Hw;
      cbn [run_ops fold_left].
    - exact Hw.
    - apply (IH (run_op w op)). now apply run_op_keeps_permission. }
  split; [exact H|].
  unfold statusIndicator. rewrite H.
  destruct (isRecording (run_ops ops w)); discriminate.
Qed.

Lemma permission_is_never_revoked_witness :
  let w := run_op initial (OpStart (Granted mic ctx44100 silence)) in
  isPermissionGranted (run_ops [OpStop; OpStart (GumRejects "NotFoundError")] w)
    = true /\
  statusIndicator (run_ops [OpStop; OpStart (GumRejects "NotFoundError")] w)
    <> ClickStart.
Proof.
  cbv zeta. apply permission_is_never_revoked. reflexivity.
Defined.

(** X: in every reachable world a buffer in [dataArrayRef] has 1024 bins,
    and while recording the analyser and the buffer are referenced. *)
Theorem reachable_buffer_has_1024_bins (w : World) :
  reachable w ->
  (forall B, dataArrayRef w = Some B -> array_length B = 1024) /\
  (isRecording w = true -> analyserRef w <> None /\ dataArrayRef w <> None).
Proof.
  intros Hw. destruct (reachable_sessionInv w Hw) as [Hrec Hlen].
  split; assumption.
Qed.

Lemma reachable_buffer_has_1024_bins_witness :
  let w := run_ops [OpStart (Granted mic ctx1000 loud); OpFrame silence] initial in
  (forall B, dataArrayRef w = Some B -> array_length B = 1024) /\
  (isRecording w = true -> analyserRef w <> None /\ dataArrayRef w <> None).
Proof.
  cbv zeta. apply reachable_buffer_has_1024_bins.
  eexists. reflexivity.
Defined.

(** X: with analyser and buffer referenced and no audio context, a run of
    [analyzeAudio] reads the analyser and publishes the level, and stops
    there: the pitch, the frame queue, [animationRef] and the effects are
    as before. *)
Theorem analyzeAudio_without_audio_context (data : Spectrum) (w : World)
    (a : AnalyserNode) (arr : Uint8Array) :
  analyserRef w = Some a ->
  dataArrayRef w = Some arr ->
  audioContextRef w = None ->
  let w' := analyzeAudio data w in
  audioLevel w' = computeLevel (getByteFrequencyData data arr) /\
  dataArrayRef w' = Some (getByteFrequencyData data arr) /\
  pitch w' = pitch w /\ frameQueue w' = frameQueue w /\
  animationRef w' = animationRef w /\ effects w' = effects w /\
  nextFrameId w' = nextFrameId w.
Proof.
  intros Ha Hd Hc. cbv zeta. unfold analyzeAudio. rewrite Ha, Hd.
  cbv zeta.
  change (audioContextRef
            (setAudioLevel (computeLevel (getByteFrequencyData data arr))
               (set_dataArrayRef (Some (getByteFrequencyData data arr)) w)))
    with (audioContextRef w).
  rewrite Hc. repeat split; reflexivity.
Qed.

Lemma analyzeAudio_without_audio_context_witness :
  let w := stopRecording (startRecording (Granted mic ctx44100 silence) initial) in
  let w' := analyzeAudio loud w in
  audioLevel w' = computeLevel (getByteFrequencyData loud
                                  (getByteFrequencyData silence (new_Uint8Array 1024))) /\
  dataArrayRef w' = Some (getByteFrequencyData loud
                            (getByteFrequencyData silence (new_Uint8Array 1024))) /\
  pitch w' = pitch w /\ frameQueue w' = frameQueue w /\
  animationRef w' = animationRef w /\ effects w' = effects w /\
  nextFrameId w' = nextFrameId w.
Proof.
  cbv zeta.
  apply (analyzeAudio_without_audio_context loud _ createAnalyser);
    reflexivity.
Defined.

(** ** The published signals *)

Lemma computeLevel_in_range (B : Uint8Array) :
  B <> [] -> levelInRange (computeLevel B).
Proof.
  intros HB. pose proof (array_length_pos B HB) as Hlen.
  pose proof (sumBins_range B) as [Hs0 Hs1].
  unfold levelInRange, computeLevel, jnum, jdiv.
  rewrite (Qeq_bool_inject_Z_pos (array_length B) Hlen).
  rewrite (Qeq_bool_inject_Z_pos 255) by lia.
  eexists. split; [reflexivity|]. rewrite reduce_sum_sumBins.
  assert (Hn : (0 < inject_Z (array_length B))%Q)
    by (rewrite <- (Zlt_Qlt 0); exact Hlen).
  assert (H255 : (0 < inject_Z 255)%Q) by reflexivity.
  split.
  - apply Qle_shift_div_l; [assumption|]. rewrite Qmult_0_l.
    apply Qle_shift_div_l; [assumption|]. rewrite Qmult_0_l.
    rewrite <- (Zle_Qle 0). assumption.
  - apply Qle_shift_div_r; [assumption|]. rewrite Qmult_1_l.
    apply Qle_shift_div_r; [assumption|].
    rewrite <- inject_Z_mult, <- Zle_Qle. assumption.
Qed.

Lemma zero_in_ranges : levelInRange (jnum 0) /\ pitchInRange (jnum 0).
Proof.
  split.
  - exists 0%Q. split; [reflexivity|]. split; discriminate.
  - right. exists 0%Q. split; [reflexivity | discriminate].
Qed.

Lemma analyzeAudio_signals (data : Spectrum) (w : World) :
  (forall B, dataArrayRef w = Some B -> array_length B = 1024) ->
  levelInRange (audioLevel w) /\ pitchInRange (pitch w) ->
  levelInRange (audioLevel (analyzeAudio data w)) /\
  pitchInRange (pitch (analyzeAudio data w)).
Proof.
  intros Hlen [Hl Hp]. unfold analyzeAudio.
  destruct (analyserRef w) as [a|]; [|split; assumption].
  destruct (dataArrayRef w) as [arr|] eqn:Ed; [|split; assumption].
  cbv zeta.
  assert (Hne : getByteFrequencyData data arr <> []).
  { intros E. pose proof (getByteFrequencyData_length data arr) as Hg.
    rewrite E, (Hlen arr eq_refl) in Hg. discriminate Hg. }
  change (audioContextRef
            (setAudioLevel (computeLevel (getByteFrequencyData data arr))
               (set_dataArrayRef (Some (getByteFrequencyData data arr)) w)))
    with (audioContextRef w).
  destruct (audioContextRef w) as [ctx|].
  - split; [now apply computeLevel_in_range | apply computePitch_in_range].
  - split; [now apply computeLevel_in_range | exact Hp].
Qed.

Lemma run_op_signals (op : Op) (w : World) :
  sessionInv w ->
  levelInRange (audioLevel w) /\ pitchInRange (pitch w) ->
  levelInRange (audioLevel (run_op w op)) /\
  pitchInRange (pitch (run_op w op)).
Proof.
  intros [_ Hlen] Hsig.
  assert (Hstop : levelInRange (audioLevel (stopRecording w)) /\
                  pitchInRange (pitch (stopRecording w))).
  { destruct (stopRecording_state w) as (_ & El & Ep & _).
    rewrite El, Ep. exact zero_in_ranges. }
  assert (Hstart : forall env,
             levelInRange (audioLevel (startRecording env w)) /\
             pitchInRange (pitch (startRecording env w))).
  { intros [reason | stream | stream c | stream c data];
      [exact Hsig | exact Hsig | exact Hsig |].
    destruct (startRecording_granted_state stream c data w)
      as (_ & _ & _ & _ & _ & _ & El & Ep & _).
    rewrite El, Ep. split; [|apply computePitch_in_range].
    apply computeLevel_in_range. intros E.
    pose proof (getByteFrequencyData_length data (new_Uint8Array 1024)) as Hg.
    rewrite E in Hg. vm_compute in Hg. discriminate Hg. }
  destruct op as [env | | env | data]; cbn [run_op].
  - apply Hstart.
  - exact Hstop.
  - unfold handleToggle. destruct (isRecording w); [exact Hstop | apply Hstart].
  - unfold runFrame. destruct (frameQueue w) as [|id rest]; [exact Hsig|].
    apply analyzeAudio_signals; assumption.
Qed.

Lemma reachable_signals (w : World) :
  reachable w -> levelInRange (audioLevel w) /\ pitchInRange (pitch w).
Proof.
  intros [ops <-].
  assert (H : forall w0,
             sessionInv w0 ->
             levelInRange (audioLevel w0) /\ pitchInRange (pitch w0) ->
             levelInRange (audioLevel (run_ops ops w0)) /\
             pitchInRange (pitch (run_ops ops w0))).
  { induction ops as [|op ops IH]; intros w0 Hinv Hsig;
      cbn [run_ops fold_left].
    - exact Hsig.
    - apply (IH (run_op w0 op)).
      + now apply run_op_sessionInv.
      + now apply run_op_signals. }
  apply H.
  - split; [discriminate|]. intros B. discriminate.
  - exact zero_in_ranges.
Qed.

(** X: in every reachable world the published level is a finite number in
    [0,1], and the published pitch is [NaN] or a finite number that is not
    negative. *)
Theorem reachable_signal_ranges (w : World) :
  reachable w ->
  (exists q : Q, audioLevel w = Fin q /\ (0 <= q <= 1)%Q) /\
  (pitch w = NaN \/ exists q : Q, pitch w = Fin q /\ (0 <= q)%Q).
Proof.
  intros Hw. exact (reachable_signals w Hw).
Qed.

Lemma reachable_signal_ranges_witness :
  let w := run_ops [OpStart (Granted mic ctx44100 (peakSpectrum 45));
                    OpFrame loud] initial in
  (exists q : Q, audioLevel w = Fin q /\ (0 <= q <= 1)%Q) /\
  (pitch w = NaN \/ exists q : Q, pitch w = Fin q /\ (0 <= q)%Q).
Proof.
  cbv zeta. apply reachable_signal_ranges. eexists. reflexivity.
Defined.

(** X: in every reachable world the orb is drawn with a pulse scale that is
    [NaN] or at least 1 and a glow intensity that is [NaN] or not negative:
    the orb is never drawn smaller than at rest. *)
Theorem reachable_orb_not_below_rest (w : World) :
  reachable w ->
  (pulseSize (renderOrb w) = NaN \/
   exists q : Q, pulseSize (renderOrb w) = Fin q /\ (1 <= q)%Q) /\
  (glowIntensity (renderOrb w) = NaN \/
   exists q : Q, glowIntensity (renderOrb w) = Fin q /\ (0 <= q)%Q).
Proof.
  intros Hw.
  destruct (reachable_signals w Hw) as [(l & El & Hl0 & Hl1) Hp].
  unfold renderOrb, NeonOrbStyle. simpl. rewrite El.
  destruct Hp as [Ep | (p & Ep & Hp0)]; rewrite Ep.
  - split; left; reflexivity.
  - split; right; eexists; (split; [reflexivity|]).
    + change (inject_Z 1) with 1%Q.
      assert (H : (0 <= (l + p) * 0.3)%Q).
      { apply Qmult_le_0_compat; [|discriminate].
        rewrite <- (Qplus_0_l 0). now apply Qplus_le_compat. }
      rewrite <- (Qplus_0_r 1) at 1. apply Qplus_le_compat; [apply Qle_refl | exact H].
    + apply Qmult_le_0_compat; [|discriminate].
      rewrite <- (Qplus_0_l 0). now apply Qplus_le_compat.
Qed.

Lemma reachable_orb_not_below_rest_witness :
  let w := run_ops [OpStart (Granted mic ctx44100 (peakSpectrum 45))] initial in
  (pulseSize (renderOrb w) = NaN \/
   exists q : Q, pulseSize (renderOrb w) = Fin q /\ (1 <= q)%Q) /\
  (glowIntensity (renderOrb w) = NaN \/
   exists q : Q, glowIntensity (renderOrb w) = Fin q /\ (0 <= q)%Q).
Proof.
  cbv zeta. apply reachable_orb_not_below_rest. eexists. reflexivity.
Defined.
